(** * cvmfs-publisher-tools (conveyor): job consumer, job database, job model

    A shallow embedding of three Go packages of the repository:
    - [consume]: the consumer loop [Run] over the deliveries of the job queue;
    - [jobdb]:   [GetJob], [GetJobs], [PutJob] and [scanRow] over the SQL backend;
    - [cvmfs]:   [JobSpecification.Prepare], [UnprocessedJob.process],
                 [packScript], [unpackScript] and [runScript].

    Go strings are [string] (a sequence of bytes), [[]byte] is [list ascii],
    a Go [error] is its message, [nil] is [None], and a run-time panic is the
    [Panicked] outcome. *)

From Stdlib Require Import ZArith List String Ascii Bool Lia.
From stdpp Require Import base option list strings pretty gmap.

Open Scope string_scope.
Open Scope list_scope.

(** ** Go basics *)

Definition error := string.
Definition bytes := list ascii.

(** The result of a call that may panic. *)
Inductive Outcome (A : Type) : Type :=
| Returned (a : A)
| Panicked (msg : string).
Arguments Returned {A} a.
Arguments Panicked {A} msg.

(** [errors.Wrap(err, msg)] of github.com/pkg/errors: message, colon, cause. *)
Definition errors_Wrap (err : error) (msg : string) : error :=
  msg +:+ ": " +:+ err.

(** ** package strings *)

Module strings.

(** [strings.Join(elems, sep)]. *)
Fixpoint Join (elems : list string) (sep : string) : string :=
  match elems with
  | [] => ""
  | [a] => a
  | a :: rest => a +:+ sep +:+ Join rest sep
  end.

(** [strings.Split(s, sep)] for a separator of one byte [c], the only kind
    this repository passes: the pieces of [s] between the occurrences of [c];
    a string without [c] (also the empty one) is its only piece. *)
Fixpoint Split (s : string) (c : ascii) : list string :=
  match s with
  | EmptyString => [""]
  | String a rest =>
      if Ascii.eqb a c then "" :: Split rest c
      else match Split rest c with
           | piece :: pieces => String a piece :: pieces
           | [] => [String a ""]
           end
  end.

(** [strings.HasPrefix]. *)
Definition HasPrefix (s p : string) : bool := String.prefix p s.

(** The byte [c] occurs in [s]. *)
Fixpoint contains_byte (c : ascii) (s : string) : bool :=
  match s with
  | EmptyString => false
  | String a rest => Ascii.eqb a c || contains_byte c rest
  end.

End strings.

Definition comma : ascii := ","%char.

(** ** package job: rows and replies of the job database *)

Module job.

(** [job.Processed]: the twelve columns [scanRow] fills and [PutJob] stores. *)
Record Processed : Type := mkProcessed {
  ID : string;
  Repository : string;
  Payload : string;
  RepositoryPath : string;
  Script : string;
  ScriptArgs : string;
  TransferScript : bool;
  Dependencies : list string;
  StartTime : Z;
  FinishTime : Z;
  Successful : bool;
  ErrorMessage : string
}.

(** [job.Status]: a job ID and its completion status. *)
Record Status : Type := mkStatus {
  StatusID : string;
  StatusSuccessful : bool
}.

(** [job.GetJobReply]; a nil slice and an empty slice are both [[]]. *)
Record GetJobReply : Type := mkGetJobReply {
  ReplyStatus : string;
  Reason : string;
  IDs : list Status;
  Jobs : list Processed
}.

(** [job.PutJobReply]. *)
Record PutJobReply : Type := mkPutJobReply {
  PutStatus : string;
  PutReason : string
}.

End job.

(** ** package jobdb *)

Module jobdb.

(** A row of the table Jobs as the SQL driver hands it over. [Dependencies]
    is one text column. [scan_fault] is the error [rows.Scan] returns for
    this row, if any (a NULL or a value of the wrong type in a column). *)
Record Row : Type := mkRow {
  col_ID : string;
  col_Repository : string;
  col_Payload : string;
  col_RepositoryPath : string;
  col_Script : string;
  col_ScriptArgs : string;
  col_TransferScript : bool;
  col_Dependencies : string;
  col_StartTime : Z;
  col_FinishTime : Z;
  col_Successful : bool;
  col_ErrorMessage : string;
  scan_fault : option error
}.

(** What can go wrong with a query: [db.Query] itself returns the error, or
    the query starts and the cursor stops early: [rows.Next()] delivers [n]
    rows and then returns false, leaving the error for [rows.Err()]. *)
Inductive QueryFault : Type :=
| QueryError (err : error)
| FetchError (n : nat) (err : error).

(** [Backend]: the database behind [b.db]: the stored rows, and for each
    driver call the error it returns, if any. *)
Record Backend : Type := mkBackend {
  table : list Row;
  query_fault : string -> list (option string) -> option QueryFault;
  begin_fault : option error;
  exec_fault : Row -> option error;
  commit_fault : option error
}.

(** [*sql.Rows]: the rows [rows.Next()] delivers before it returns false,
    and what [rows.Err()] reports after that. *)
Record Rows : Type := mkRows {
  delivered : list Row;
  rows_Err : option error
}.

(** [b.db.Query(queryStr, params...)] for the two queries of this package,
    which select the rows whose ID is one of the parameters. *)
Definition db_Query (b : Backend) (queryStr : string) (params : list (option string))
  : Rows + error :=
  let matching := filter (fun r => Some (col_ID r) ∈ params) (table b) in
  match query_fault b queryStr params with
  | Some (QueryError err) => inr err
  | Some (FetchError n err) => inl (mkRows (take n matching) (Some err))
  | None => inl (mkRows matching None)
  end.

(** The query as [GetJob] and [GetJobs] use it: they iterate with
    [rows.Next()] and never call [rows.Err()], so of the cursor they see
    the delivered rows only. *)
Definition Query (b : Backend) (queryStr : string) (params : list (option string))
  : list Row + error :=
  match db_Query b queryStr params with
  | inl rows => inl (delivered rows)
  | inr err => inr err
  end.

(** [scanRow]: one row into a [job.Processed]; the dependencies column is
    split on commas unless it is empty. *)
Definition scanRow (r : Row) : job.Processed + error :=
  match scan_fault r with
  | Some err => inr err
  | None =>
      inl {| job.ID := col_ID r;
             job.Repository := col_Repository r;
             job.Payload := col_Payload r;
             job.RepositoryPath := col_RepositoryPath r;
             job.Script := col_Script r;
             job.ScriptArgs := col_ScriptArgs r;
             job.TransferScript := col_TransferScript r;
             job.Dependencies :=
               if decide (col_Dependencies r = "") then []
               else strings.Split (col_Dependencies r) comma;
             job.StartTime := col_StartTime r;
             job.FinishTime := col_FinishTime r;
             job.Successful := col_Successful r;
             job.ErrorMessage := col_ErrorMessage r |}
  end.

Definition status_of (st : job.Processed) : job.Status :=
  {| job.StatusID := job.ID st; job.StatusSuccessful := job.Successful st |}.

(** [GetJob]: the row of one ID. *)
Definition GetJob (b : Backend) (id : string) (full : bool)
  : job.GetJobReply * option error :=
  let reply := job.mkGetJobReply "ok" "" [] [] in
  match Query b "select * from Jobs where ID = $1" [Some id] with
  | inr err =>
      (job.mkGetJobReply "error" "query error" (job.IDs reply) (job.Jobs reply),
       Some (errors_Wrap err "query failed"))
  | inl rows =>
      match rows with
      | [] => (reply, None)
      | r :: _ =>
          match scanRow r with
          | inr err =>
              (job.mkGetJobReply "error" "query failed" (job.IDs reply) (job.Jobs reply),
               Some (errors_Wrap err "scan failed"))
          | inl st =>
              if full
              then (job.mkGetJobReply "ok" "" (job.IDs reply) [st], None)
              else (job.mkGetJobReply "ok" "" [status_of st] (job.Jobs reply), None)
          end
      end
  end.

(** The first loop of [GetJobs], over [ids[0 : len(ids)-1]] from index [i]:
    a placeholder per ID in the query and the ID in its slot of [params]. *)
Fixpoint placeholders (i : nat) (vs : list string) (queryStr : string)
    (params : list (option string)) : string * list (option string) :=
  match vs with
  | [] => (queryStr, params)
  | v :: rest =>
      placeholders (S i) rest
        (queryStr +:+ "$" +:+ pretty (i + 1)%nat +:+ ", ")
        (<[i := Some v]> params)
  end.

(** The second loop of [GetJobs], [for rows.Next()]: the first row that does
    not scan ends it with an error reply whose lists are emptied. *)
Fixpoint scanRows (rows : list Row) (full : bool) (reply : job.GetJobReply)
  : job.GetJobReply * option error :=
  match rows with
  | [] => (reply, None)
  | r :: rest =>
      match scanRow r with
      | inr err =>
          let reason := "SQL query scan failed" in
          (job.mkGetJobReply "error" reason [] [], Some (errors_Wrap err reason))
      | inl st =>
          scanRows rest full
            (if full
             then job.mkGetJobReply (job.ReplyStatus reply) (job.Reason reply)
                    (job.IDs reply) (job.Jobs reply ++ [st])
             else job.mkGetJobReply (job.ReplyStatus reply) (job.Reason reply)
                    (job.IDs reply ++ [status_of st]) (job.Jobs reply))
      end
  end.

(** [GetJobs]: the rows of a batch of IDs. Slicing [ids[0 : len(ids)-1]]
    panics on an empty batch. *)
Definition GetJobs (b : Backend) (ids : list string) (full : bool)
  : Outcome (job.GetJobReply * option error) :=
  let reply := job.mkGetJobReply "ok" "" [] [] in
  match ids with
  | [] => Panicked "slice bounds out of range [:-1]"
  | _ :: _ =>
      let n := length ids in
      let '(queryStr, params) :=
        placeholders 0 (take (n - 1) ids)
          "select * from Jobs where Jobs.ID in (" (replicate n None) in
      let queryStr := queryStr +:+ "$" +:+ pretty n +:+ ");" in
      let params := <[(n - 1)%nat := last ids]> params in
      match Query b queryStr params with
      | inr err =>
          let reason := "SQL query failed" in
          Returned
            (job.mkGetJobReply "error" reason (job.IDs reply) (job.Jobs reply),
             Some (errors_Wrap err reason))
      | inl rows => Returned (scanRows rows full reply)
      end
  end.

(** The row [PutJob] inserts: the dependencies joined with commas. *)
Definition row_of (j : job.Processed) : Row :=
  {| col_ID := job.ID j;
     col_Repository := job.Repository j;
     col_Payload := job.Payload j;
     col_RepositoryPath := job.RepositoryPath j;
     col_Script := job.Script j;
     col_ScriptArgs := job.ScriptArgs j;
     col_TransferScript := job.TransferScript j;
     col_Dependencies := strings.Join (job.Dependencies j) ",";
     col_StartTime := job.StartTime j;
     col_FinishTime := job.FinishTime j;
     col_Successful := job.Successful j;
     col_ErrorMessage := job.ErrorMessage j;
     scan_fault := None |}.

Definition with_table (b : Backend) (t : list Row) : Backend :=
  mkBackend t (query_fault b) (begin_fault b) (exec_fault b) (commit_fault b).

(** [PutJob]: inserts a job inside an SQL transaction; the deferred
    [tx.Rollback()] leaves the table as it was unless the commit succeeded. *)
Definition PutJob (b : Backend) (j : job.Processed)
  : Backend * job.PutJobReply * option error :=
  match begin_fault b with
  | Some err =>
      let reason := "opening SQL transaction failed" in
      (b, job.mkPutJobReply "error" reason, Some (errors_Wrap err reason))
  | None =>
      match exec_fault b (row_of j) with
      | Some err =>
          let reason := "executing SQL statement failed" in
          (b, job.mkPutJobReply "error" reason, Some (errors_Wrap err reason))
      | None =>
          match commit_fault b with
          | Some err =>
              let reason := "committing SQL transaction failed" in
              (b, job.mkPutJobReply "error" reason, Some (errors_Wrap err reason))
          | None =>
              (with_table b (table b ++ [row_of j]), job.mkPutJobReply "ok" "", None)
          end
      end
  end.

(** *** The vocabulary of the properties *)

(** A dependency list as the job server stores it: job IDs, none empty,
    none with a comma. *)
Definition plain_deps (deps : list string) : Prop :=
  Forall (fun d => d <> "" /\ strings.contains_byte comma d = false) deps.

(** No stored row has this ID. *)
Definition absent (b : Backend) (id : string) : Prop :=
  Forall (fun r => col_ID r <> id) (table b).

(** The rows the database returns for a batch of IDs. *)
Definition selected (b : Backend) (ids : list string) : list Row :=
  filter (fun r => col_ID r ∈ ids) (table b).

Definition GetJob_query : string := "select * from Jobs where ID = $1".

(** The rows the cursor of a query delivers. *)
Definition fetched (b : Backend) (queryStr : string) (params : list (option string))
    (ids : list string) : list Row :=
  match query_fault b queryStr params with
  | Some (FetchError n _) => take n (selected b ids)
  | _ => selected b ids
  end.

(** The text of the query of [GetJobs]. *)
Definition GetJobs_query (ids : list string) : string :=
  fst (placeholders 0 (take (length ids - 1) ids)
         "select * from Jobs where Jobs.ID in (" (replicate (length ids) None))
  +:+ "$" +:+ pretty (length ids) +:+ ");".

(** The job a row holds, as [scanRow] fills it in. *)
Definition processed_of (r : Row) : job.Processed :=
  {| job.ID := col_ID r;
     job.Repository := col_Repository r;
     job.Payload := col_Payload r;
     job.RepositoryPath := col_RepositoryPath r;
     job.Script := col_Script r;
     job.ScriptArgs := col_ScriptArgs r;
     job.TransferScript := col_TransferScript r;
     job.Dependencies :=
       if decide (col_Dependencies r = "") then []
       else strings.Split (col_Dependencies r) comma;
     job.StartTime := col_StartTime r;
     job.FinishTime := col_FinishTime r;
     job.Successful := col_Successful r;
     job.ErrorMessage := col_ErrorMessage r |}.

(** The number of bytes [c] in [s]. *)
Fixpoint count_byte (c : ascii) (s : string) : nat :=
  match s with
  | EmptyString => 0
  | String a rest => (if Ascii.eqb a c then 1 else 0) + count_byte c rest
  end.

End jobdb.

(** ** package consume: the consumer loop *)

Module consume.

(** [job.Description], the fields [Run] reads. *)
Record Description : Type := mkDescription {
  ID : string;
  Repo : string;
  Path : string;
  Payload : string
}.

(** A message of the job queue as delivered to the consumer. *)
Record Delivery : Type := mkDelivery {
  Body : bytes;
  Redelivered : bool
}.

(** What the consumer answers for a delivery: [j.Ack(multiple)] or
    [j.Nack(multiple, requeue)]. *)
Inductive Settlement : Type :=
| Ack (j : Delivery) (multiple : bool)
| Nack (j : Delivery) (multiple requeue : bool).

Section Consumer.

(** The world outside the loop: [W] is its state (file system, repository,
    network); the calls into it return the next state and their error. *)
Variable W : Type.
(** [json.Unmarshal(body, &desc)]: the description after the call (the
    variable is shared by all iterations) and the error. *)
Variable json_Unmarshal : bytes -> Description -> Description * option error.
Variable os_MkdirAll : W -> string -> W * option error.
Variable getter_GetFile : W -> string -> string -> W * option error.
(** [transaction.Run(desc, task)]. *)
Variable transaction_Run :
  W -> Description -> (W -> W * option error) -> W * option error.

(** The closure [task] of an iteration. *)
Definition task (desc : Description) (w : W) : W * option error :=
  let targetDir := "/cvmfs/" +:+ Repo desc +:+ "/" +:+ Path desc in
  match os_MkdirAll w targetDir with
  | (w1, Some err) => (w1, Some err)
  | (w1, None) =>
      match getter_GetFile w1 targetDir (Payload desc) with
      | (w2, Some err) => (w2, Some err)
      | (w2, None) => (w2, None)
      end
  end.

(** The state of the loop [for j := range jobs]: the world, the variable
    [desc], the messages the broker still holds for this consumer (next
    delivery first), and the settlements sent so far. *)
Record Loop : Type := mkLoop {
  world : W;
  desc : Description;
  queue : list Delivery;
  settled : list Settlement
}.

(** A message rejected with requeue goes back to the head of the queue,
    marked as redelivered. *)
Definition requeue (j : Delivery) (rest : list Delivery) : list Delivery :=
  mkDelivery (Body j) true :: rest.

(** One iteration of the loop on the next delivery; [None] when the queue
    is empty (the loop then waits). *)
Definition Run_iteration (st : Loop) : option Loop :=
  match queue st with
  | [] => None
  | j :: rest =>
      match json_Unmarshal (Body j) (desc st) with
      | (d, Some _) =>
          Some (mkLoop (world st) d rest (settled st ++ [Nack j false false]))
      | (d, None) =>
          match transaction_Run (world st) d (task d) with
          | (w, Some _) =>
              Some (mkLoop w d (requeue j rest) (settled st ++ [Nack j false true]))
          | (w, None) =>
              Some (mkLoop w d rest (settled st ++ [Ack j false]))
          end
      end
  end.

(** The loop of [Run], for at most [fuel] deliveries. *)
Fixpoint Run (fuel : nat) (st : Loop) : Loop :=
  match fuel with
  | O => st
  | S fuel' =>
      match Run_iteration st with
      | None => st
      | Some st' => Run fuel' st'
      end
  end.

(** The settlements of the loop for the deliveries [q], starting with the
    variable [desc] at [d], in a run where no transaction fails: a
    rejection without requeue for a body that does not unmarshal, an
    acknowledgement for the others. *)
Fixpoint answers (d : Description) (q : list Delivery) : list Settlement :=
  match q with
  | [] => []
  | j :: rest =>
      match json_Unmarshal (Body j) d with
      | (d', Some _) => Nack j false false :: answers d' rest
      | (d', None) => Ack j false :: answers d' rest
      end
  end.

(** In the world [w], with [desc] at [d], every transaction that the loop
    runs for the deliveries [q] returns nil. *)
Fixpoint transactions_succeed (w : W) (d : Description) (q : list Delivery) : Prop :=
  match q with
  | [] => True
  | j :: rest =>
      match json_Unmarshal (Body j) d with
      | (d', Some _) => transactions_succeed w d' rest
      | (d', None) =>
          exists w', transaction_Run w d' (task d') = (w', None)
                     /\ transactions_succeed w' d' rest
      end
  end.

(** In the world [w], with [desc] at [d] and the queue [q], each of the
    next [n] deliveries unmarshals and its transaction returns an error. *)
Fixpoint transactions_fail (n : nat) (w : W) (d : Description) (q : list Delivery)
  : Prop :=
  match n with
  | O => True
  | S n' =>
      match q with
      | [] => False
      | j :: rest =>
          exists d' w' e,
            json_Unmarshal (Body j) d = (d', None)
            /\ transaction_Run w d' (task d') = (w', Some e)
            /\ transactions_fail n' w' d' (requeue j rest)
      end
  end.

End Consumer.

Arguments mkLoop {W}.
Arguments world {W}.
Arguments desc {W}.
Arguments queue {W}.
Arguments settled {W}.
Arguments task {W}.
Arguments Run_iteration {W}.
Arguments Run {W}.
Arguments transactions_succeed {W}.
Arguments transactions_fail {W}.

Definition is_Ack (s : Settlement) : bool :=
  match s with Ack _ _ => true | Nack _ _ _ => false end.

Definition is_requeue (s : Settlement) : bool :=
  match s with Nack _ _ true => true | _ => false end.

(** The number of acknowledgements and of requeueing rejections sent. *)
Definition acks (l : list Settlement) : nat := length (filter is_Ack l).
Definition requeues (l : list Settlement) : nat := length (filter is_requeue l).

(** The delivery a settlement answers. *)
Definition delivery_of (s : Settlement) : Delivery :=
  match s with Ack j _ => j | Nack j _ _ => j end.

End consume.

(** ** package encoding/base64: [StdEncoding] *)

Module base64.

Definition encodeStd : string :=
  "ABCDEFGHIJKLMNOPQRSTUVWXYZabcdefghijklmnopqrstuvwxyz0123456789+/".

Definition StdPadding : ascii := "="%char.

(** [enc.encode[i]]. *)
Definition encode (i : N) : ascii :=
  match String.get (N.to_nat i) encodeStd with
  | Some c => c
  | None => "000"%char
  end.

Fixpoint index_from (c : ascii) (s : string) (i : N) : option N :=
  match s with
  | EmptyString => None
  | String a rest => if Ascii.eqb a c then Some i else index_from c rest (N.succ i)
  end.

(** [enc.decodeMap[c]]: the value of an alphabet character, [None] for the
    entries the table marks invalid. *)
Definition decodeMap (c : ascii) : option N := index_from c encodeStd 0.

(** The 24 bits of three source bytes. *)
Definition quantum (a b c : N) : N :=
  N.lor (N.lor (N.shiftl a 16) (N.shiftl b 8)) c.

(** [enc.encode[val>>k&0x3F]]. *)
Definition sextet (val k : N) : ascii := encode (N.land (N.shiftr val k) 63).

(** [EncodeToString]: four characters per three bytes, the last group
    padded. *)
Fixpoint EncodeToString (src : bytes) : string :=
  match src with
  | [] => ""
  | [a] =>
      let val := quantum (N_of_ascii a) 0 0 in
      String (sextet val 18) (String (sextet val 12)
        (String StdPadding (String StdPadding "")))
  | [a; b] =>
      let val := quantum (N_of_ascii a) (N_of_ascii b) 0 in
      String (sextet val 18) (String (sextet val 12)
        (String (sextet val 6) (String StdPadding "")))
  | a :: b :: c :: rest =>
      let val := quantum (N_of_ascii a) (N_of_ascii b) (N_of_ascii c) in
      String (sextet val 18) (String (sextet val 12)
        (String (sextet val 6) (String (sextet val 0) (EncodeToString rest))))
  end.

(** The 24 bits of four decoded characters. *)
Definition dquantum (s0 s1 s2 s3 : N) : N :=
  N.lor (N.lor (N.lor (N.shiftl s0 18) (N.shiftl s1 12)) (N.shiftl s2 6)) s3.

(** [byte(val >> k)]. *)
Definition byte_at (val k : N) : ascii := ascii_of_N (N.land (N.shiftr val k) 255).

Definition is_newline (c : ascii) : bool :=
  Ascii.eqb c "010"%char || Ascii.eqb c "013"%char.

(** The quanta of the input once line breaks are dropped: padding only ends
    the input, every other character is of the alphabet. *)
Fixpoint decode_quanta (src : list ascii) : option bytes :=
  match src with
  | [] => Some []
  | c0 :: c1 :: c2 :: c3 :: rest =>
      match decodeMap c0, decodeMap c1 with
      | Some s0, Some s1 =>
          if Ascii.eqb c2 StdPadding then
            match Ascii.eqb c3 StdPadding, rest with
            | true, [] => Some [byte_at (dquantum s0 s1 0 0) 16]
            | _, _ => None
            end
          else
            match decodeMap c2 with
            | None => None
            | Some s2 =>
                if Ascii.eqb c3 StdPadding then
                  match rest with
                  | [] =>
                      let val := dquantum s0 s1 s2 0 in
                      Some [byte_at val 16; byte_at val 8]
                  | _ :: _ => None
                  end
                else
                  match decodeMap c3 with
                  | None => None
                  | Some s3 =>
                      let val := dquantum s0 s1 s2 s3 in
                      match decode_quanta rest with
                      | Some out =>
                          Some (byte_at val 16 :: byte_at val 8 :: byte_at val 0 :: out)
                      | None => None
                      end
                  end
            end
      | _, _ => None
      end
  | _ => None
  end.

(** [DecodeString]: carriage returns and line feeds are ignored. *)
Definition DecodeString (s : string) : bytes + error :=
  match decode_quanta
          (List.filter (fun c => negb (is_newline c)) (list_ascii_of_string s)) with
  | Some out => inl out
  | None => inr "illegal base64 data"
  end.

(** The alphabet, entry by entry: each of the 64 characters decodes to its
    index and is neither the padding nor a line break. *)
Definition alphabet_entry (i : N) : bool :=
  match decodeMap (encode i) with
  | Some j => N.eqb j i
  | None => false
  end
  && negb (Ascii.eqb (encode i) StdPadding)
  && negb (is_newline (encode i)).

End base64.

(** ** package compress/gzip *)

Module gzip.

(** The compressor and the decompressor: [Compress] is what a [gzip.Writer]
    has written to its buffer once closed, [NewReader] reads the header of a
    stream (and fails on a bad one), [ReadAll] is [ioutil.ReadAll] of the
    reader (and fails on corrupt data). *)
Record Codec : Type := mkCodec {
  stream : Type;
  Compress : bytes -> bytes;
  NewReader : bytes -> stream + error;
  ReadAll : stream -> bytes + error
}.

(** What RFC 1952 asks of a compressor and its decompressor. *)
Definition lossless (gz : Codec) : Prop :=
  forall data : bytes,
    exists r, NewReader gz (Compress gz data) = inl r /\ ReadAll gz r = inl data.

End gzip.

(** ** package path *)

Module path.

(** One element of the path in [Clean], with the elements kept so far, last
    first: an empty element (a repeated slash) and [.] are dropped; [..]
    removes the element before it, unless that is a [..] that was kept or
    there is none: then it is dropped at the root and kept otherwise. *)
Definition clean_step (rooted : bool) (out : list string) (e : string) : list string :=
  if String.eqb e "" || String.eqb e "." then out
  else if String.eqb e ".." then
    match out with
    | top :: below => if String.eqb top ".." then e :: out else below
    | [] => if rooted then [] else [e]
    end
  else e :: out.

(** [path.Clean(path)]: the shortest equivalent path: the elements that
    [clean_step] keeps, joined by single slashes, after the root slash of a
    rooted path; [.] for the empty path and for a relative path of which
    nothing is kept. *)
Definition Clean (p : string) : string :=
  if String.eqb p "" then "."
  else
    let rooted := strings.HasPrefix p "/" in
    let out := fold_left (clean_step rooted) (strings.Split p "/"%char) [] in
    let body := strings.Join (rev out) "/" in
    if rooted then "/" +:+ body
    else if String.eqb body "" then "." else body.

(** [path.Join(elem...)]: the elements from the first non-empty one on,
    joined with slashes and cleaned; the empty string when all are empty. *)
Fixpoint Join (elem : list string) : string :=
  match elem with
  | [] => ""
  | e :: rest =>
      if String.eqb e "" then Join rest else Clean (strings.Join elem "/")
  end.

End path.

(** ** package cvmfs: the job model and its processing *)

Module cvmfs.

(** [MaxJobDuration] is the number of seconds that a job is allowed to take. *)
Definition MaxJobDuration : Z := 2 * 3600.

Record JobSpecification : Type := mkJobSpecification {
  Repository : string;
  Payload : string;
  RepositoryPath : string;
  Script : string;
  ScriptArgs : string;
  TransferScript : bool;
  Dependencies : list string
}.

Record UnprocessedJob : Type := mkUnprocessedJob {
  ID : string;
  Spec : JobSpecification
}.

Definition with_RepositoryPath (spec : JobSpecification) (p : string) : JobSpecification :=
  mkJobSpecification (Repository spec) (Payload spec) p (Script spec)
    (ScriptArgs spec) (TransferScript spec) (Dependencies spec).

Definition with_Script (spec : JobSpecification) (s : string) : JobSpecification :=
  mkJobSpecification (Repository spec) (Payload spec) (RepositoryPath spec) s
    (ScriptArgs spec) (TransferScript spec) (Dependencies spec).

(** *** Readers, writers, files *)

Inductive ReadErr : Type :=
| EOF
| ReadFault (err : error).

(** An [io.Reader] behind a [bufio.Reader], as the results [(buf[:n], err)]
    of its successive [Read] calls; once they are used up [Read] returns
    [(0, io.EOF)]. The buffer handed to [Read] has the size of the
    [bufio.Reader]'s own, so each call is one read of the underlying reader. *)
Definition Reader : Type := list (bytes * option ReadErr).

(** [bufReader.Size()] of a [bufio.NewReader]. *)
Definition bufSize : nat := 4096.

Fixpoint chunks (fuel size : nat) (data : bytes) : list bytes :=
  match fuel with
  | O => []
  | S fuel' =>
      match data with
      | [] => []
      | _ :: _ => take size data :: chunks fuel' size (drop size data)
      end
  end.

(** The reads of an open file holding [data]. *)
Definition file_reads (data : bytes) : Reader :=
  map (fun c => (c, None)) (chunks (length data) bufSize data).

(** An [io.Writer]: what was written, and for a writer whose [Write] fails,
    the number of bytes it still writes before it fails and the error it
    returns. *)
Record Writer : Type := mkWriter {
  written : bytes;
  write_fault : option (nat * error)
}.

(** [dest.Write(p)]: a failing call has written the first [n] bytes of [p]. *)
Definition Write (dest : Writer) (p : bytes) : Writer * option error :=
  match write_fault dest with
  | Some (n, err) => (mkWriter (written dest ++ take n p) (write_fault dest), Some err)
  | None => (mkWriter (written dest ++ p) None, None)
  end.

Record File : Type := mkFile {
  mode : Z;
  contents : bytes
}.

(** *** packScript, unpackScript *)

(** The read loop of [packScript]: it appends what each [Read] returns and
    stops at the first read of nothing. *)
Fixpoint read_input (reader : Reader) (input : bytes) : bytes + error :=
  match reader with
  | [] => inl input
  | (buf, err) :: rest =>
      match err with
      | Some (ReadFault e) => inr (errors_Wrap e "could not read input")
      | _ =>
          match buf with
          | [] => inl input
          | _ :: _ => read_input rest (input ++ buf)
          end
      end
  end.

(** [packScript] into a gzipped, base64 encoded buffer. Writing to the
    [bytes.Buffer] behind the compressor does not fail. *)
Definition packScript (gz : gzip.Codec) (reader : Reader) : string + error :=
  match read_input reader [] with
  | inr err => inr err
  | inl input => inl (base64.EncodeToString (gzip.Compress gz input))
  end.

(** [unpackScript] from a gzipped, base64 encoded buffer into [dest]. *)
Definition unpackScript (gz : gzip.Codec) (body : string) (dest : Writer)
  : Writer * option error :=
  match base64.DecodeString body with
  | inr err => (dest, Some (errors_Wrap err "base64 decoding failed"))
  | inl buf =>
      match gzip.NewReader gz buf with
      | inr err => (dest, Some (errors_Wrap err "gzip reader construction failed"))
      | inl rd =>
          match gzip.ReadAll gz rd with
          | inr err => (dest, Some (errors_Wrap err "decompression failed"))
          | inl rawbuf =>
              match Write dest rawbuf with
              | (dest', Some err) => (dest', Some (errors_Wrap err "writing failed"))
              | (dest', None) => (dest', None)
              end
          end
      end
  end.

(** *** Prepare *)

(** [os.Open(name)] on the files of the client. *)
Definition os_Open (fs : gmap string File) (name : string) : Reader + error :=
  match fs !! name with
  | Some f => inl (file_reads (contents f))
  | None => inr ("open " +:+ name +:+ ": no such file or directory")
  end.

(** [Prepare] a job specification for submission. Indexing
    [spec.RepositoryPath[0]] panics on the empty string. *)
Definition Prepare (gz : gzip.Codec) (fs : gmap string File) (spec : JobSpecification)
  : Outcome (JobSpecification * option error) :=
  match RepositoryPath spec with
  | EmptyString => Panicked "index out of range [0] with length 0"
  | String c _ =>
      let spec1 :=
        if negb (Ascii.eqb c "/"%char)
        then with_RepositoryPath spec ("/" +:+ RepositoryPath spec)
        else spec in
      if negb (String.eqb (Script spec1) "") then
        if TransferScript spec1 then
          match os_Open fs (Script spec1) with
          | inr err => Returned (spec1, Some (errors_Wrap err "could not open script"))
          | inl f =>
              match packScript gz f with
              | inr err =>
                  Returned (spec1, Some (errors_Wrap err "could not pack script"))
              | inl s => Returned (with_Script spec1 s, None)
              end
          end
        else Returned (spec1, None)
      else Returned (spec1, None)
  end.

(** *** process *)

(** What the operating system answers when [cmd.Run()] starts a command.
    [look_path]: [exec.LookPath] of a name without directory, the path found
    or the error of the lookup. [chdir_fault]: the error of starting a
    process in the directory [cmd.Dir], if any (the directory is missing or
    cannot be entered). [run_relative]: what [cmd.Run()] returns for a
    relative path, which is resolved in [cmd.Dir], a place the files of
    the model do not name: directory, path and arguments. [exit_of]: what
    [cmd.Run()] returns once the file has been accepted for execution:
    path, arguments and content of the file. *)
Record Exec : Type := mkExec {
  look_path : string -> string + error;
  chdir_fault : string -> option error;
  run_relative : string -> string -> string -> string -> string -> option error;
  exit_of : string -> string -> string -> string -> bytes -> option error
}.

(** The worker's machine: its files by the name they are opened with, the
    umask of the process, and what the calls outside the package answer:
    [os.MkdirAll], [getter.Get], [os.Create], [Write] on a created file, and
    the start of a command. *)
Record World : Type := mkWorld {
  fs : gmap string File;
  umask : Z;
  mkdir_fault : string -> option error;
  get_fault : string -> string -> option error;
  create_fault : string -> option error;
  file_write_fault : string -> option (nat * error);
  exec_env : Exec
}.

Definition with_fs (w : World) (m : gmap string File) : World :=
  mkWorld m (umask w) (mkdir_fault w) (get_fault w) (create_fault w)
    (file_write_fault w) (exec_env w).

(** [os.Create(name)]: [OpenFile(name, O_RDWR|O_CREATE|O_TRUNC, 0666)]: an
    existing file is emptied and keeps its mode, a new one gets mode 0666
    less the umask. *)
Definition os_Create (w : World) (name : string) : World + error :=
  match create_fault w name with
  | Some err => inr err
  | None =>
      let m := match fs w !! name with
               | Some f => mode f
               | None => Z.land 438 (Z.lnot (umask w))
               end in
      inl (with_fs w (<[name := mkFile m []]> (fs w)))
  end.

(** Some execute bit of the mode is set. *)
Definition executable (f : File) : bool := negb (Z.land (mode f) 73 =? 0)%Z.

(** [filepath.Base(name) == name], the test of [exec.Command] for a name
    to look up in [PATH]: a non-empty name without a slash, or the name
    [/] (the base of the empty name is [.]). *)
Definition is_base (name : string) : bool :=
  String.eqb name "/"
  || (negb (String.eqb name "") && negb (strings.contains_byte "/"%char name)).

(** Starting the file at a rooted path [p] in the directory [dir], while
    this process holds the files [writing] open for writing: the start
    fails when the directory cannot be entered, when the file is missing,
    when it has no execute bit, and when it is open for writing. *)
Definition start (w : World) (writing : list string) (dir p : string)
    (repo repoPath args : string) : option error :=
  match chdir_fault (exec_env w) dir with
  | Some err => Some err
  | None =>
      match fs w !! p with
      | None => Some ("fork/exec " +:+ p +:+ ": no such file or directory")
      | Some f =>
          if negb (executable f)
          then Some ("fork/exec " +:+ p +:+ ": permission denied")
          else if bool_decide (p ∈ writing)
          then Some ("fork/exec " +:+ p +:+ ": text file busy")
          else exit_of (exec_env w) p repo repoPath args (contents f)
      end
  end.

(** [runScript]: [exec.Command(script, repo, repoPath, args)] with
    [cmd.Dir = path.Join("/cvmfs", repo)], then [cmd.Run()]. [writing] are
    the files the caller holds open for writing. *)
Definition runScript (w : World) (writing : list string)
    (script repo repoPath args : string) : option error :=
  let dir := path.Join ["/cvmfs"; repo] in
  let run (p : string) : option error :=
    if strings.HasPrefix p "/" then start w writing dir p repo repoPath args
    else run_relative (exec_env w) dir p repo repoPath args in
  if is_base script then
    match look_path (exec_env w) script with
    | inr err => Some err
    | inl lp => run lp
    end
  else run script.

(** [process] a job (download and unpack payload, run script etc.). The
    file created for a transferred script is closed when [process] returns
    ([defer f.Close()]), so it is open for writing while the script is
    started; what [unpackScript] wrote is in the file also when it
    failed. *)
Definition process (gz : gzip.Codec) (w : World) (j : UnprocessedJob) (tempDir : string)
  : World * option error :=
  let spec := Spec j in
  let targetDir := path.Join ["/cvmfs"; Repository spec; RepositoryPath spec] in
  match mkdir_fault w targetDir with
  | Some err => (w, Some (errors_Wrap err "could not create target dir"))
  | None =>
      match (if negb (String.eqb (Payload spec) "")
             then get_fault w targetDir (Payload spec) else None) with
      | Some err => (w, Some (errors_Wrap err "could not download payload"))
      | None =>
          if negb (String.eqb (Script spec) "") then
            let needsUnpacking := TransferScript spec in
            if needsUnpacking then
              let scriptFile := path.Join [tempDir; "transaction.sh"] in
              match os_Create w scriptFile with
              | inr err =>
                  (w, Some (errors_Wrap err "creating destination file failed"))
              | inl w1 =>
                  let m := match fs w1 !! scriptFile with
                           | Some f => mode f
                           | None => 0%Z
                           end in
                  let '(f, unpacked) :=
                    unpackScript gz (Script spec)
                      (mkWriter [] (file_write_fault w1 scriptFile)) in
                  let w2 := with_fs w1 (<[scriptFile := mkFile m (written f)]> (fs w1)) in
                  match unpacked with
                  | Some err =>
                      (w2, Some (errors_Wrap err "unpacking transaction script failed"))
                  | None =>
                      match runScript w2 [scriptFile] scriptFile (Repository spec)
                              (RepositoryPath spec) (ScriptArgs spec) with
                      | Some err =>
                          (w2, Some (errors_Wrap err "running transaction script failed"))
                      | None => (w2, None)
                      end
                  end
              end
            else
              match runScript w [] (Script spec) (Repository spec)
                      (RepositoryPath spec) (ScriptArgs spec) with
              | Some err => (w, Some (errors_Wrap err "running transaction script failed"))
              | None => (w, None)
              end
          else (w, None)
      end
  end.

End cvmfs.

(** ** package cvmfs: the configuration and the endpoints of the job server *)

Module cvmfs_config.

Record BackendConfig : Type := mkBackendConfig {
  BackendType : string;
  Database : string;
  BackendUsername : string;
  BackendPassword : string;
  BackendHost : string;
  BackendPort : Z
}.

Record QueueConfig : Type := mkQueueConfig {
  QueueUsername : string;
  QueuePassword : string;
  QueueHost : string;
  VHost : string;
  QueuePort : Z
}.

Record WorkerConfig : Type := mkWorkerConfig {
  Name : string;
  JobRetries : Z;
  TempDir : string
}.

Record ServerConfig : Type := mkServerConfig {
  Host : string;
  Port : Z
}.

Record Config : Type := mkConfig {
  KeyDir : string;
  Server : ServerConfig;
  Queue : QueueConfig;
  Backend : BackendConfig;
  Worker : WorkerConfig
}.

(** [HTTPEndpoints] holds the different HTTP end points of the job server. *)
Record HTTPEndpoints : Type := mkHTTPEndpoints {
  base : string
}.

(** [newHTTPEndpoints]: [fmt.Sprintf("%s%s:%v", prefix, host, port)], the
    prefix being [http://] unless the host has a scheme already. *)
Definition newHTTPEndpoints (host : string) (port : Z) : HTTPEndpoints :=
  let prefix :=
    if negb (strings.HasPrefix host "http://") && negb (strings.HasPrefix host "https://")
    then "http://" else "" in
  mkHTTPEndpoints (prefix +:+ host +:+ ":" +:+ pretty port).

(** [NewJobs] returns the endpoint for new jobs. *)
Definition NewJobs (o : HTTPEndpoints) (withBase : bool) : string :=
  let pt := "/jobs/new" in
  if withBase then base o +:+ pt else pt.

(** [CompletedJobs] returns the endpoint for completed jobs. *)
Definition CompletedJobs (o : HTTPEndpoints) (withBase : bool) : string :=
  let pt := "/jobs/complete" in
  if withBase then base o +:+ pt else pt.

(** [Config.HTTPEndpoints]. *)
Definition Config_HTTPEndpoints (c : Config) : HTTPEndpoints :=
  newHTTPEndpoints (Host (Server c)) (Port (Server c)).

End cvmfs_config.

(** ** A gzip codec: RFC 1952 members made of stored DEFLATE blocks *)

Module stored.

Local Open Scope N_scope.

(** [n] bytes of [v], least significant first. *)
Fixpoint le (n : nat) (v : N) : bytes :=
  match n with
  | O => []
  | S n' => ascii_of_N (v mod 256) :: le n' (v / 256)
  end.

Fixpoint of_le (l : bytes) : N :=
  match l with
  | [] => 0
  | b :: rest => N_of_ascii b + 256 * of_le rest
  end.

(** CRC-32 (IEEE), bit by bit. *)
Definition crc_bit (c : N) : N :=
  if N.odd c then N.lxor (N.shiftr c 1) 3988292384 else N.shiftr c 1.

Definition crc_byte (crc : N) (b : ascii) : N :=
  Nat.iter 8 crc_bit (N.lxor crc (N_of_ascii b)).

Definition crc32 (data : bytes) : N :=
  N.lxor (fold_left crc_byte data 4294967295) 4294967295.

(** ID1 ID2, CM = deflate, no flags, no mtime, XFL = 0, OS = unknown. *)
Definition header : bytes :=
  map ascii_of_N [31; 139; 8; 0; 0; 0; 0; 0; 0; 255].

(** The most bytes a stored block holds. *)
Definition blockMax : N := 65535.

Definition size (data : bytes) : N := N.of_nat (length data).

(** One stored block (BTYPE = 00): BFINAL, LEN, NLEN and the bytes. *)
Definition block (final : N) (data : bytes) : bytes :=
  ascii_of_N final :: le 2 (size data) ++ le 2 (blockMax - size data) ++ data.

(** The blocks of [data], the last one final. *)
Fixpoint deflate (fuel : nat) (data : bytes) : bytes :=
  match fuel with
  | O => block 1 data
  | S fuel' =>
      if size data <=? blockMax then block 1 data
      else
        block 0 (take (N.to_nat blockMax) data)
          ++ deflate fuel' (drop (N.to_nat blockMax) data)
  end.

Definition trailer (data : bytes) : bytes :=
  le 4 (crc32 data) ++ le 4 (size data mod 4294967296).

Definition Compress (data : bytes) : bytes :=
  header ++ deflate (length data) data ++ trailer data.

(** The blocks of a stream and what follows them. *)
Fixpoint inflate (fuel : nat) (s : bytes) : option (bytes * bytes) :=
  match fuel with
  | O => None
  | S fuel' =>
      match s with
      | h :: l0 :: l1 :: n0 :: n1 :: rest =>
          let len := of_le [l0; l1] in
          let nlen := of_le [n0; n1] in
          if (N_of_ascii h <=? 1) && (len + nlen =? blockMax)
             && (len <=? size rest) then
            let data := take (N.to_nat len) rest in
            let after := drop (N.to_nat len) rest in
            if N_of_ascii h =? 1 then Some (data, after)
            else
              match inflate fuel' after with
              | Some (more, tail) => Some (data ++ more, tail)
              | None => None
              end
          else None
      | _ => None
      end
  end.

Definition NewReader (s : bytes) : bytes + error :=
  if decide (take 10 s = header) then inl (drop 10 s)
  else inr "gzip: invalid header"%string.

Definition ReadAll (s : bytes) : bytes + error :=
  match inflate (length s) s with
  | None => inr "flate: corrupt input"%string
  | Some (data, rest) =>
      if decide (rest = trailer data) then inl data
      else inr "gzip: invalid checksum"%string
  end.

Definition codec : gzip.Codec := gzip.mkCodec bytes Compress NewReader ReadAll.

End stored.

(** ** The worker's time limit *)

Module worker.

(** Modelled from the spec: the worker's bounded execution of one job (the
    Timeout rule of the Worker Engine), which is not among the sources;
    only the constant [cvmfs.MaxJobDuration] is. The whole per-job
    execution is bounded by the maximum duration; exceeding it aborts the
    transaction and finalizes the job as failed with a timeout error,
    distinct from a script failure. *)
Inductive Transaction : Type := Committed | Aborted.

Inductive JobError : Type :=
| ErrTimeout
| ErrFailed (err : error).

Record Finalized : Type := mkFinalized {
  transaction : Transaction;
  Successful : bool;
  ErrorMessage : option JobError
}.

(** Modelled from the spec: the outcome of a job whose execution took
    [elapsed] seconds and, when it ended in time, returned [result]. *)
Definition execute (elapsed : Z) (result : option error) : Finalized :=
  if (cvmfs.MaxJobDuration <? elapsed)%Z then mkFinalized Aborted false (Some ErrTimeout)
  else
    match result with
    | Some err => mkFinalized Aborted false (Some (ErrFailed err))
    | None => mkFinalized Committed true None
    end.

End worker.

(** * Concrete inputs *)

Module Examples.

(** A database with a row that scans and a row that does not. *)
Definition row_a : jobdb.Row :=
  jobdb.mkRow "a" "test-sw.hsf.org" "" "/ripgrep-0.1.0" "" "" false "" 10 20 true "" None.

Definition row_b : jobdb.Row :=
  jobdb.mkRow "b" "test-sw.hsf.org" "" "/ripgrep-0.2.0" "" "" false "a" 30 40 true ""
    (Some "converting NULL to string is unsupported").

Definition db : jobdb.Backend :=
  jobdb.mkBackend [row_a; row_b] (fun _ _ => None) None (fun _ => None) None.

(** A database with two rows that scan, on a connection that breaks while
    the rows of a query are fetched: [rows.Next()] delivers [n] rows and
    then returns false, with the error left in [rows.Err()]. *)
Definition row_d : jobdb.Row :=
  jobdb.mkRow "d" "test-sw.hsf.org" "" "/ripgrep-0.3.0" "" "" false "" 50 60 true "" None.

Definition db_cut (n : nat) : jobdb.Backend :=
  jobdb.mkBackend [row_a; row_d]
    (fun _ _ => Some (jobdb.FetchError n "unexpected EOF")) None (fun _ => None) None.

Definition job_a : job.Processed :=
  job.mkProcessed "a" "test-sw.hsf.org" "" "/ripgrep-0.1.0" "" "" false [] 10 20 true "".

(** A finished job that depends on two others. *)
Definition job_c : job.Processed :=
  job.mkProcessed "c" "test-sw.hsf.org" "" "/" "/usr/local/bin/list_all_versions.sh" ""
    false ["a"; "b"] 50 60 true "".

(** A job message: the JSON text of a job description. *)
Definition quoted (s : string) : string :=
  String "034"%char s +:+ String "034"%char "".

Definition member (key value : string) : string := quoted key +:+ ":" +:+ quoted value.

Definition job_json : string :=
  "{" +:+ member "ID" "6ba7b810-9dad-11d1-80b4-00c04fd430c8"
  +:+ "," +:+ member "Repo" "test-sw.hsf.org"
  +:+ "," +:+ member "Path" "ripgrep"
  +:+ "," +:+ member "Payload" "https://example.org/ripgrep.tar.gz" +:+ "}".

Definition job_description : consume.Description :=
  consume.mkDescription "6ba7b810-9dad-11d1-80b4-00c04fd430c8" "test-sw.hsf.org"
    "ripgrep" "https://example.org/ripgrep.tar.gz".

(** What [json.Unmarshal] answers for the two bodies delivered in the runs
    below: the job message sets all the fields of the description, and the
    empty body is an error that leaves the description as it was. Any other
    body is taken as an error too; none is delivered below. *)
Definition unmarshal_strict (body : bytes) (d : consume.Description)
  : consume.Description * option error :=
  if String.eqb (string_of_list_ascii body) job_json then (job_description, None)
  else
    match body with
    | [] => (d, Some "unexpected end of JSON input")
    | _ :: _ => (d, Some "invalid character looking for beginning of value")
    end.

(** A consumer whose transactions all fail, with one job on the queue. *)
Definition mkdir_ok (w : unit) (dir : string) : unit * option error := (w, None).
Definition get_ok (w : unit) (dst src : string) : unit * option error := (w, None).

Definition transaction_fails (w : unit) (d : consume.Description)
    (task : unit -> unit * option error) : unit * option error :=
  (w, Some "could not open transaction").

Definition job_message : consume.Delivery :=
  consume.mkDelivery (list_ascii_of_string job_json) false.

Definition start (q : list consume.Delivery) : consume.Loop unit :=
  consume.mkLoop tt (consume.mkDescription "" "" "" "") q [].

Definition failing_run (fuel : nat) : consume.Loop unit :=
  consume.Run unmarshal_strict mkdir_ok get_ok transaction_fails fuel (start [job_message]).

(** A job specification with a relative path. *)
Definition spec_foo : cvmfs.JobSpecification :=
  cvmfs.mkJobSpecification "test-sw.hsf.org" "" "foo" "" "" false [].

(** A worker with an empty temporary directory and umask 022, where every
    call outside the package succeeds, a name is found in [/usr/bin], and a
    started script exits with 0. *)
Definition machine : cvmfs.World :=
  cvmfs.mkWorld ∅ 18 (fun _ => None) (fun _ _ => None) (fun _ => None) (fun _ => None)
    (cvmfs.mkExec (fun name => inl ("/usr/bin/" +:+ name)) (fun _ => None)
       (fun _ _ _ _ _ => None) (fun _ _ _ _ _ => None)).

Definition script_text : bytes := list_ascii_of_string "#!/bin/sh
ls /cvmfs/test-sw.hsf.org
".

(** The script as [Prepare] packs it. *)
Definition packed_script : string :=
  match cvmfs.packScript stored.codec (cvmfs.file_reads script_text) with
  | inl s => s
  | inr _ => ""
  end.

Definition transfer_job : cvmfs.UnprocessedJob :=
  cvmfs.mkUnprocessedJob "job-1"
    (cvmfs.mkJobSpecification "test-sw.hsf.org" "" "/" packed_script "" true []).

Definition tempDir : string := "/tmp/conveyor-worker".


(** A consumer whose transactions all succeed. *)
Definition transaction_ok (w : unit) (d : consume.Description)
    (task : unit -> unit * option error) : unit * option error :=
  (w, None).

(** The files of a client that has a script to transfer, and the job. *)
Definition client_files : gmap string cvmfs.File :=
  {[ "/home/user/publish.sh" := cvmfs.mkFile 420 script_text ]}.

Definition spec_transfer : cvmfs.JobSpecification :=
  cvmfs.mkJobSpecification "test-sw.hsf.org" "" "foo" "/home/user/publish.sh" "" true [].


End Examples.

(** * Properties *)

(** ** strings: joining and splitting *)

Section SplitJoin.

Import strings.

Lemma Split_without (c : ascii) (s : string) :
  contains_byte c s = false -> Split s c = [s].
Proof.
  induction s as [|a s IH]; simpl; [reflexivity|].
  intros H. apply orb_false_iff in H as [Ha Hs].
  rewrite Ha, (IH Hs). reflexivity.
Qed.

Lemma Split_append (c : ascii) (a rest : string) :
  contains_byte c a = false ->
  Split (a +:+ String c rest) c = a :: Split rest c.
Proof.
  induction a as [|x a IH]; simpl.
  - intros _. rewrite Ascii.eqb_refl. reflexivity.
  - intros H. apply orb_false_iff in H as [Hx Ha].
    rewrite Hx, (IH Ha). reflexivity.
Qed.

(** Splitting a joined list of comma-free pieces gives the pieces back. *)
Lemma Split_Join (deps : list string) :
  deps <> [] ->
  Forall (fun d => contains_byte comma d = false) deps ->
  Split (Join deps ",") comma = deps.
Proof.
  induction deps as [|a deps IH]; [congruence|].
  intros _ Hall. apply Forall_cons in Hall as [Ha Hrest].
  destruct deps as [|b deps].
  - simpl. apply Split_without, Ha.
  - change (Join (a :: b :: deps) ",") with (a +:+ String comma (Join (b :: deps) ",")).
    rewrite (Split_append _ _ _ Ha), IH; [reflexivity|congruence|assumption].
Qed.

(** A joined list of non-empty pieces is empty only for the empty list. *)
Lemma Join_empty (deps : list string) :
  Forall (fun d => d <> "") deps -> Join deps "," = "" -> deps = [].
Proof.
  destruct deps as [|a deps]; [reflexivity|].
  intros Hall. apply Forall_cons in Hall as [Ha _].
  destruct a as [|x a]; [congruence|].
  destruct deps; simpl; discriminate.
Qed.

End SplitJoin.

(** ** jobdb *)

Section JobDB.

Import jobdb.

Lemma scanRow_row_of (j : job.Processed) :
  plain_deps (job.Dependencies j) -> scanRow (row_of j) = inl j.
Proof.
  intros Hdeps. destruct j as [id repo pay rp sc sa ts deps t0 t1 ok msg].
  unfold scanRow, row_of; simpl in *. do 2 f_equal.
  case_decide as Hempty.
  - symmetry. apply Join_empty in Hempty; [assumption|].
    eapply Forall_impl; [exact Hdeps|]. intros d [Hd _]. exact Hd.
  - apply Split_Join.
    + intros ->. apply Hempty. reflexivity.
    + eapply Forall_impl; [exact Hdeps|]. intros d [_ Hd]. exact Hd.
Qed.

(** C10. A job whose dependencies are non-empty, comma-free strings is
    stored by [PutJob] with the dependencies joined by commas, and [scanRow]
    of the stored row gives the job back, dependency list included; an empty
    dependency list is stored as the empty string and read back as the
    empty list. *)
Theorem PutJob_scanRow_dependencies (b : Backend) (j : job.Processed) :
  plain_deps (job.Dependencies j) ->
  begin_fault b = None -> exec_fault b (row_of j) = None -> commit_fault b = None ->
  exists b',
    PutJob b j = (b', job.mkPutJobReply "ok" "", None)
    /\ last (table b') = Some (row_of j)
    /\ col_Dependencies (row_of j) = strings.Join (job.Dependencies j) ","
    /\ scanRow (row_of j) = inl j
    /\ (job.Dependencies j = [] -> col_Dependencies (row_of j) = "")
    /\ (col_Dependencies (row_of j) = "" -> job.Dependencies j = []).
Proof.
  intros Hdeps Hb He Hc. unfold PutJob. rewrite Hb, He, Hc.
  eexists. split; [reflexivity|]. split; [apply last_snoc|].
  split; [reflexivity|]. split; [apply scanRow_row_of, Hdeps|]. split.
  - intros Hnil. simpl. rewrite Hnil. reflexivity.
  - simpl. apply Join_empty.
    eapply Forall_impl; [exact Hdeps|]. intros d [Hd _]. exact Hd.
Qed.

Lemma filter_params (ids : list string) (t : list Row) :
  filter (fun r => Some (col_ID r) ∈ Some <$> ids) t
  = filter (fun r => col_ID r ∈ ids) t.
Proof.
  apply list_filter_iff. intros r. rewrite list_elem_of_fmap. split.
  - intros (y & Hy & Hin). injection Hy as ->. exact Hin.
  - intros Hin. exists (col_ID r). auto.
Qed.

Lemma selected_absent (b : Backend) (id : string) :
  absent b id -> selected b [id] = [].
Proof.
  unfold absent, selected. induction (table b) as [|r t IH]; [reflexivity|].
  intros H. apply Forall_cons in H as [Hr Ht].
  rewrite filter_cons_False; [apply IH, Ht|].
  rewrite list_elem_of_singleton. exact Hr.
Qed.

Lemma Query_fetched (b : Backend) (q : string) (ids : list string) :
  Query b q (Some <$> ids)
  = match query_fault b q (Some <$> ids) with
    | Some (QueryError err) => inr err
    | _ => inl (fetched b q (Some <$> ids) ids)
    end.
Proof.
  unfold Query, db_Query, fetched, selected. rewrite filter_params.
  destruct (query_fault b q (Some <$> ids)) as [[err|n err]|]; reflexivity.
Qed.

Lemma fetched_ok (b : Backend) (q : string) (params : list (option string))
    (ids : list string) :
  query_fault b q params = None -> fetched b q params ids = selected b ids.
Proof. unfold fetched. intros ->. reflexivity. Qed.

Lemma GetJob_unfold (b : Backend) (id : string) (full : bool) :
  GetJob b id full =
  match query_fault b GetJob_query [Some id] with
  | Some (QueryError err) =>
      (job.mkGetJobReply "error" "query error" [] [],
       Some (errors_Wrap err "query failed"))
  | _ =>
      match fetched b GetJob_query [Some id] [id] with
      | [] => (job.mkGetJobReply "ok" "" [] [], None)
      | r :: _ =>
          match scan_fault r with
          | Some err =>
              (job.mkGetJobReply "error" "query failed" [] [],
               Some (errors_Wrap err "scan failed"))
          | None =>
              match scanRow r with
              | inl st =>
                  if full then (job.mkGetJobReply "ok" "" [] [st], None)
                  else (job.mkGetJobReply "ok" "" [status_of st] [], None)
              | inr err =>
                  (job.mkGetJobReply "error" "query failed" [] [],
                   Some (errors_Wrap err "scan failed"))
              end
          end
      end
  end.
Proof.
  unfold GetJob. fold GetJob_query.
  change [Some id] with (Some <$> [id]). rewrite Query_fetched.
  destruct (query_fault b GetJob_query (Some <$> [id])) as [[err|n err]|];
    try reflexivity;
    (destruct (fetched b GetJob_query (Some <$> [id]) [id]) as [|r rows]; [reflexivity|]);
    unfold scanRow; destruct (scan_fault r); reflexivity.
Qed.

(** The status of the reply of [GetJob] follows its error. *)
Lemma GetJob_status_error (b : Backend) (id : string) (full : bool) :
  forall reply err,
    GetJob b id full = (reply, err) ->
    (job.ReplyStatus reply = "error" <-> err <> None)
    /\ (job.ReplyStatus reply = "ok" <-> err = None).
Proof.
  intros reply err. rewrite GetJob_unfold.
  destruct (query_fault b _ _) as [[e|n e]|];
    try (intros [= <- <-]; cbn; split; split; congruence);
    (destruct (fetched b GetJob_query [Some id] [id]) as [|r rows];
     [intros [= <- <-]; cbn; split; split; congruence|]);
    (destruct (scan_fault r);
     [|destruct (scanRow r) as [st|e']; [destruct full|]];
     intros [= <- <-]; cbn; split; split; congruence).
Qed.

(** What [GetJob] answers, case by case: a failed [db.Query] gives the error
    reply "query error"; otherwise no delivered row gives the empty ok
    reply, and a first delivered row gives the error reply "query failed"
    when it does not scan. The status is error exactly when the error is
    not nil. *)
Lemma GetJob_replies (b : Backend) (id : string) (full : bool) :
  (forall err,
     query_fault b GetJob_query [Some id] = Some (QueryError err) ->
     GetJob b id full
     = (job.mkGetJobReply "error" "query error" [] [],
        Some (errors_Wrap err "query failed")))
  /\ (absent b id ->
      (forall err, query_fault b GetJob_query [Some id] <> Some (QueryError err)) ->
      GetJob b id full = (job.mkGetJobReply "ok" "" [] [], None))
  /\ (forall r err,
        (forall e, query_fault b GetJob_query [Some id] <> Some (QueryError e)) ->
        head (fetched b GetJob_query [Some id] [id]) = Some r ->
        scan_fault r = Some err ->
        GetJob b id full
        = (job.mkGetJobReply "error" "query failed" [] [],
           Some (errors_Wrap err "scan failed")))
  /\ (forall reply err,
        GetJob b id full = (reply, err) ->
        (job.ReplyStatus reply = "error" <-> err <> None)
        /\ (job.ReplyStatus reply = "ok" <-> err = None)).
Proof.
  split; [|split; [|split; [|apply GetJob_status_error]]]; rewrite GetJob_unfold.
  - intros err ->. reflexivity.
  - intros Habs Hq.
    assert (Hnone : fetched b GetJob_query [Some id] [id] = []).
    { unfold fetched. rewrite (selected_absent _ _ Habs).
      destruct (query_fault b _ _) as [[e|n e]|]; try reflexivity. apply take_nil. }
    rewrite Hnone. destruct (query_fault b _ _) as [[e|n e]|]; try reflexivity.
    exfalso. apply (Hq e). reflexivity.
  - intros r err Hq Hhead Hscan.
    destruct (fetched b GetJob_query [Some id] [id]) as [|r' rows]; [discriminate|].
    injection Hhead as ->. rewrite Hscan.
    destruct (query_fault b _ _) as [[e|n e]|]; try reflexivity.
    exfalso. apply (Hq e). reflexivity.
Qed.

(** The slots of [params] that the first loop of [GetJobs] fills. *)
Lemma placeholders_params (vs : list string) :
  forall (i : nat) (q : string) (params : list (option string)),
    (i + length vs <= length params)%nat ->
    snd (placeholders i vs q params)
    = take i params ++ (Some <$> vs) ++ drop (i + length vs) params.
Proof.
  induction vs as [|v vs IH]; intros i q params Hlen; simpl in *.
  - rewrite Nat.add_0_r, take_drop. reflexivity.
  - rewrite IH by (rewrite length_insert; lia).
    rewrite (take_S_r _ i (Some v)) by (apply list_lookup_insert_eq; lia).
    rewrite take_insert_ge by lia. rewrite drop_insert_lt by lia.
    rewrite <- app_assoc. simpl.
    replace (S (i + length vs)) with (i + S (length vs))%nat by lia.
    reflexivity.
Qed.

Lemma GetJobs_params (ids : list string) :
  ids <> [] ->
  <[(length ids - 1)%nat := last ids]>
    (snd (placeholders 0 (take (length ids - 1) ids)
            "select * from Jobs where Jobs.ID in (" (replicate (length ids) None)))
  = Some <$> ids.
Proof.
  intros Hne. destruct (exists_last Hne) as (front & x & ->).
  rewrite length_app. simpl.
  replace (length front + 1 - 1)%nat with (length front) by lia.
  rewrite take_app_length, last_snoc.
  rewrite placeholders_params by (rewrite length_replicate; lia).
  simpl. rewrite drop_replicate.
  replace (length front + 1 - length front)%nat with 1%nat by lia. simpl.
  rewrite fmap_app. simpl.
  rewrite insert_app_r_alt by (rewrite length_fmap; lia).
  rewrite length_fmap, Nat.sub_diag. reflexivity.
Qed.

Lemma GetJobs_unfold (b : Backend) (ids : list string) (full : bool) :
  ids <> [] ->
  GetJobs b ids full =
  match query_fault b (GetJobs_query ids) (Some <$> ids) with
  | Some (QueryError err) =>
      Returned (job.mkGetJobReply "error" "SQL query failed" [] [],
                Some (errors_Wrap err "SQL query failed"))
  | _ =>
      Returned (scanRows (fetched b (GetJobs_query ids) (Some <$> ids) ids) full
                  (job.mkGetJobReply "ok" "" [] []))
  end.
Proof.
  intros Hne. pose proof (GetJobs_params ids Hne) as Hp. unfold GetJobs_query.
  unfold GetJobs. destruct ids as [|id ids]; [congruence|].
  remember (id :: ids) as l. cbv zeta.
  destruct (placeholders 0 (take (length l - 1) l) _ _) as [q params].
  cbn [fst snd] in *. rewrite Hp. rewrite Query_fetched.
  destruct (query_fault b _ _) as [[err|n err]|]; reflexivity.
Qed.

(** The loop over the rows: an error reply is the emptied one, and comes
    exactly when some row does not scan. *)
Lemma scanRows_spec (rows : list Row) (full : bool) :
  forall reply,
    job.ReplyStatus reply = "ok" ->
    let '(out, err) := scanRows rows full reply in
    (Exists (fun r => scan_fault r <> None) rows ->
       err <> None /\ job.ReplyStatus out = "error"
       /\ job.IDs out = [] /\ job.Jobs out = [])
    /\ (Forall (fun r => scan_fault r = None) rows ->
       err = None /\ job.ReplyStatus out = "ok"
       /\ length (job.IDs out) + length (job.Jobs out)
          = length (job.IDs reply) + length (job.Jobs reply) + length rows)%nat.
Proof.
  induction rows as [|r rows IH]; intros reply Hok; simpl.
  - split; [intros H; inversion H|]. intros _. repeat split; [assumption|lia].
  - unfold scanRow. destruct (scan_fault r) as [e|] eqn:Hs.
    + split; [intros _; repeat split; congruence|].
      intros H. apply Forall_cons in H as [Hr _]. congruence.
    + match goal with |- context [scanRows rows full ?rp] => specialize (IH rp) end.
      destruct full; simpl in IH; specialize (IH Hok);
        destruct (scanRows rows _ _) as [out err]; destruct IH as [IHe IHf]; split.
      * intros H. apply Exists_cons in H as [Hr|Hr]; [congruence|]. apply IHe, Hr.
      * intros H. apply Forall_cons in H as [_ Hr]. destruct (IHf Hr) as (? & ? & Hl).
        repeat split; try assumption. simpl in Hl. rewrite length_app in Hl. simpl in Hl. lia.
      * intros H. apply Exists_cons in H as [Hr|Hr]; [congruence|]. apply IHe, Hr.
      * intros H. apply Forall_cons in H as [_ Hr]. destruct (IHf Hr) as (? & ? & Hl).
        repeat split; try assumption. simpl in Hl. rewrite length_app in Hl. simpl in Hl. lia.
Qed.

(** The failures [GetJobs] observes abort the batch: for a batch of at
    least one ID it returns, and when [db.Query] fails or one of the
    delivered rows does not scan, the reply has status error, empty IDs and
    jobs, and the error is not nil; a non-nil error always comes with that
    reply, and a nil error with status ok and one entry per delivered
    row. *)
Lemma GetJobs_observed_failures (b : Backend) (ids : list string) (full : bool) :
  ids <> [] ->
  exists reply err,
    GetJobs b ids full = Returned (reply, err)
    /\ (((exists e, query_fault b (GetJobs_query ids) (Some <$> ids) = Some (QueryError e))
         \/ Exists (fun r => scan_fault r <> None)
              (fetched b (GetJobs_query ids) (Some <$> ids) ids)) ->
        err <> None /\ job.ReplyStatus reply = "error"
        /\ job.IDs reply = [] /\ job.Jobs reply = [])
    /\ (err <> None ->
        job.ReplyStatus reply = "error" /\ job.IDs reply = [] /\ job.Jobs reply = [])
    /\ (err = None ->
        job.ReplyStatus reply = "ok"
        /\ (length (job.IDs reply) + length (job.Jobs reply))%nat
           = length (fetched b (GetJobs_query ids) (Some <$> ids) ids)).
Proof.
  intros Hne. rewrite (GetJobs_unfold _ _ _ Hne).
  set (rows := fetched b (GetJobs_query ids) (Some <$> ids) ids).
  assert (Hrows : exists reply err,
    scanRows rows full (job.mkGetJobReply "ok" "" [] []) = (reply, err)
    /\ (Exists (fun r => scan_fault r <> None) rows ->
        err <> None /\ job.ReplyStatus reply = "error"
        /\ job.IDs reply = [] /\ job.Jobs reply = [])
    /\ (err <> None ->
        job.ReplyStatus reply = "error" /\ job.IDs reply = [] /\ job.Jobs reply = [])
    /\ (err = None ->
        job.ReplyStatus reply = "ok"
        /\ (length (job.IDs reply) + length (job.Jobs reply))%nat = length rows)).
  { pose proof (scanRows_spec rows full (job.mkGetJobReply "ok" "" [] []) eq_refl) as H.
    destruct (scanRows _ _ _) as [out err]. destruct H as [He Hf].
    exists out, err. split; [reflexivity|].
    destruct (decide (Forall (fun r => scan_fault r = None) rows)) as [Hall|Hsome].
    - destruct (Hf Hall) as (-> & Hst & Hlen). simpl in Hlen.
      split; [|split; [congruence|intros _; split; [assumption|lia]]].
      intros Hex. exfalso.
      apply Exists_exists in Hex as (r & Hin & Hr).
      rewrite Forall_forall in Hall. apply Hr, Hall, Hin.
    - assert (Hex : Exists (fun r => scan_fault r <> None) rows).
      { apply not_Forall_Exists in Hsome; [|intros r; apply _].
        eapply Exists_impl; [exact Hsome|]. intros r Hr. exact Hr. }
      destruct (He Hex) as (Herr & Hst & Hi & Hj).
      split; [intros _; auto|]. split; [intros _; auto|]. congruence. }
  destruct (query_fault b (GetJobs_query ids) (Some <$> ids)) as [[qe|n qe]|] eqn:Hq.
  - do 2 eexists. split; [reflexivity|]. simpl. repeat split; congruence.
  - destruct Hrows as (reply & err & Hs & He & Herr & Hok).
    exists reply, err. split; [rewrite Hs; reflexivity|].
    split; [|split; assumption]. intros [[e He']|Hex]; [discriminate|apply He, Hex].
  - destruct Hrows as (reply & err & Hs & He & Herr & Hok).
    exists reply, err. split; [rewrite Hs; reflexivity|].
    split; [|split; assumption]. intros [[e He']|Hex]; [discriminate|apply He, Hex].
Qed.

End JobDB.

(** ** consume: the loop of [Run] *)

Section ConsumerLoop.

Import consume.

Variable W : Type.
Variable json_Unmarshal : bytes -> Description -> Description * option error.
Variable os_MkdirAll : W -> string -> W * option error.
Variable getter_GetFile : W -> string -> string -> W * option error.
Variable transaction_Run :
  W -> Description -> (W -> W * option error) -> W * option error.

Let iteration := Run_iteration json_Unmarshal os_MkdirAll getter_GetFile transaction_Run.
Let loop := Run json_Unmarshal os_MkdirAll getter_GetFile transaction_Run.

(** C6. A delivery whose body does not unmarshal is rejected with
    [Nack(false, false)]: it is not put back on the queue, the world is left
    as it was (no transaction is run: the outcome does not depend on what
    [transaction.Run] would do), and the loop goes on with the next
    delivery. *)
Theorem Run_rejects_unparseable
    (st : Loop W) (j : Delivery) (rest : list Delivery) (d : Description) (e : error) :
  queue st = j :: rest ->
  json_Unmarshal (Body j) (desc st) = (d, Some e) ->
  let st' := mkLoop (world st) d rest (settled st ++ [Nack j false false]) in
  iteration st = Some st'
  /\ (forall tx',
        Run_iteration json_Unmarshal os_MkdirAll getter_GetFile tx' st = Some st')
  /\ (forall fuel, loop (S fuel) st = loop fuel st').
Proof.
  intros Hq Hu. simpl.
  assert (H : forall tx',
    Run_iteration json_Unmarshal os_MkdirAll getter_GetFile tx' st
    = Some (mkLoop (world st) d rest (settled st ++ [Nack j false false]))).
  { intros tx'. unfold Run_iteration. rewrite Hq, Hu. reflexivity. }
  split; [apply H|]. split; [exact H|].
  intros fuel. unfold loop. simpl. rewrite H. reflexivity.
Qed.

(** C1, as amended. A delivery that unmarshals and whose transaction fails
    (the payload is fetched inside it) is rejected with [Nack(false, true)]
    and is back at the head of the queue, marked as redelivered: the loop
    keeps no count of attempts, so this is what it does at every attempt,
    and it records no outcome. One whose transaction succeeds is
    acknowledged with [Ack(false)] and leaves the queue. *)
Theorem Run_requeues_failed_transaction
    (st : Loop W) (j : Delivery) (rest : list Delivery) (d : Description) (w : W) :
  queue st = j :: rest ->
  json_Unmarshal (Body j) (desc st) = (d, None) ->
  (forall e, transaction_Run (world st) d (task os_MkdirAll getter_GetFile d) = (w, Some e) ->
     iteration st
     = Some (mkLoop w d (mkDelivery (Body j) true :: rest)
               (settled st ++ [Nack j false true])))
  /\ (transaction_Run (world st) d (task os_MkdirAll getter_GetFile d) = (w, None) ->
     iteration st = Some (mkLoop w d rest (settled st ++ [Ack j false]))).
Proof.
  intros Hq Hu. unfold iteration, Run_iteration. rewrite Hq, Hu.
  split; [intros e Ht|intros Ht]; rewrite Ht; reflexivity.
Qed.

(** X21. The loop requeues without bound: in a run where each of the next
    [n] deliveries unmarshals and its transaction fails, these [n]
    deliveries add [n] rejections with requeue and no acknowledgement, and
    the queue keeps its length, for every [n]. *)
Lemma Run_requeues_unbounded (n : nat) :
  forall st : Loop W,
    transactions_fail json_Unmarshal os_MkdirAll getter_GetFile transaction_Run
      n (world st) (desc st) (queue st) ->
    requeues (settled (loop n st)) = (requeues (settled st) + n)%nat
    /\ acks (settled (loop n st)) = acks (settled st)
    /\ length (settled (loop n st)) = (length (settled st) + n)%nat
    /\ length (queue (loop n st)) = length (queue st).
Proof.
  induction n as [|n IH]; intros st Hfail.
  - simpl. repeat split; lia.
  - unfold loop in *. cbn [Run transactions_fail] in *. unfold Run_iteration.
    destruct (queue st) as [|j rest] eqn:Ej; [contradiction|].
    destruct Hfail as (d & w & e & Hu & Ht & Hrest).
    rewrite Hu, Ht.
    match goal with |- context [Run _ _ _ _ n ?s] =>
      destruct (IH s Hrest) as (Hr & Ha & Hs & Hl) end.
    cbn [settled queue] in Hr, Ha, Hs, Hl. rewrite Hr, Ha, Hs, Hl.
    unfold requeues, acks. rewrite !filter_app, !length_app. simpl.
    repeat split; lia.
Qed.

End ConsumerLoop.

(** ** cvmfs: Prepare *)

Section PrepareSpec.

Import cvmfs.

Variable gz : gzip.Codec.
Variable files : gmap string File.

(** C4. For a non-empty [RepositoryPath], [Prepare] returns, and the
    [RepositoryPath] it leaves starts with a slash: the slash was prepended
    when the path did not start with one, and the path is unchanged when it
    did. *)
Theorem Prepare_leading_slash (spec : JobSpecification) :
  RepositoryPath spec <> "" ->
  exists spec' err,
    Prepare gz files spec = Returned (spec', err)
    /\ strings.HasPrefix (RepositoryPath spec') "/" = true
    /\ (strings.HasPrefix (RepositoryPath spec) "/" = false ->
        RepositoryPath spec' = "/" +:+ RepositoryPath spec)
    /\ (strings.HasPrefix (RepositoryPath spec) "/" = true ->
        RepositoryPath spec' = RepositoryPath spec).
Proof.
  intros Hne. destruct spec as [repo pay rp sc sa ts deps].
  unfold Prepare, strings.HasPrefix. cbn [RepositoryPath] in *.
  destruct rp as [|c p]; [congruence|].
  assert (Hpre : String.prefix "/" (String c p) = Ascii.eqb c "/"%char).
  { change (String.prefix "/" (String c p))
      with (if ascii_dec "/"%char c then String.prefix "" p else false).
    destruct (ascii_dec "/"%char c) as [<-|Hc].
    - destruct p; reflexivity.
    - symmetry. apply Ascii.eqb_neq. congruence. }
  rewrite Hpre.
  destruct (Ascii.eqb c "/"%char) eqn:Ec;
    cbn [negb with_RepositoryPath with_Script RepositoryPath Script TransferScript];
    (destruct (negb (String.eqb sc "")); [destruct ts|]);
    [destruct (os_Open files sc) as [f|e]; [destruct (packScript gz f) as [s|e]|]| |
    |destruct (os_Open files sc) as [f|e]; [destruct (packScript gz f) as [s|e]|]| |];
    do 2 eexists; (split; [reflexivity|]);
    cbn [negb with_RepositoryPath with_Script RepositoryPath Script TransferScript fst];
    rewrite ?Hpre, ?Ec; repeat split; congruence.
Qed.

(** C9. [Prepare] reads [RepositoryPath[0]] before anything else: it
    panics with an index out of range exactly when [RepositoryPath] is
    empty (and then returns no error value), and returns otherwise. *)
Theorem Prepare_panics_on_empty_path (spec : JobSpecification) :
  (RepositoryPath spec = "" <->
   Prepare gz files spec = Panicked "index out of range [0] with length 0")
  /\ (RepositoryPath spec <> "" <-> exists r, Prepare gz files spec = Returned r).
Proof.
  destruct spec as [repo pay rp sc sa ts deps].
  unfold Prepare. cbn [RepositoryPath]. destruct rp as [|c p].
  - split; split; try congruence; try reflexivity. intros [r Hr]. discriminate.
  - cbv zeta.
    destruct (negb (Ascii.eqb c "/"%char));
      cbn [with_RepositoryPath with_Script RepositoryPath Script TransferScript];
      (destruct (negb (String.eqb sc "")); [destruct ts|]);
      [destruct (os_Open files sc) as [f|e]; [destruct (packScript gz f) as [s|e]|]| |
      |destruct (os_Open files sc) as [f|e]; [destruct (packScript gz f) as [s|e]|]| |];
      (split; split; [discriminate|discriminate|intros _; eexists; reflexivity|discriminate]).
Qed.

End PrepareSpec.

(** ** The time limit of a job *)

(** C8. [MaxJobDuration] is 2 * 3600 seconds, that is two hours; a job
    whose execution takes longer has its transaction aborted and is
    finalized as failed with the timeout error, which no failure of a script
    equals. *)
Theorem MaxJobDuration_timeout :
  cvmfs.MaxJobDuration = (2 * 3600)%Z
  /\ cvmfs.MaxJobDuration = 7200%Z
  /\ (forall elapsed result,
        (cvmfs.MaxJobDuration < elapsed)%Z ->
        worker.execute elapsed result
        = worker.mkFinalized worker.Aborted false (Some worker.ErrTimeout))
  /\ (forall err, worker.ErrTimeout <> worker.ErrFailed err).
Proof.
  split; [reflexivity|]. split; [reflexivity|]. split.
  - intros elapsed result H. unfold worker.execute.
    apply Z.ltb_lt in H. rewrite H. reflexivity.
  - intros err. discriminate.
Qed.

(** ** base64: decoding an encoding *)

Section Base64.

Import base64.
Local Open Scope N_scope.

Ltac Zify.zify_post_hook ::= Z.to_euclidean_division_equations.

(** Or-ing a value below [2^k] into a multiple of [2^k] adds it. *)
Lemma lor_shiftl_add (hi lo k : N) :
  lo < 2 ^ k -> N.lor (N.shiftl hi k) lo = hi * 2 ^ k + lo.
Proof.
  intros Hlo.
  assert (Hdis : N.land (N.shiftl hi k) lo = 0).
  { apply N.bits_inj. intros n. rewrite N.land_spec, N.bits_0.
    destruct (N.lt_ge_cases n k) as [Hn|Hn].
    - rewrite N.shiftl_spec_low by assumption. reflexivity.
    - rewrite <- (N.mod_small lo (2 ^ k)) by assumption.
      rewrite N.mod_pow2_bits_high by assumption. apply andb_false_r. }
  rewrite <- N.lxor_lor by assumption.
  rewrite <- N.add_nocarry_lxor by assumption.
  rewrite N.shiftl_mul_pow2. reflexivity.
Qed.

Lemma lor_add (x lo k : N) :
  lo < 2 ^ k -> x mod 2 ^ k = 0 -> N.lor x lo = x + lo.
Proof.
  intros Hlo Hx.
  assert (Hk : 2 ^ k <> 0) by (apply N.pow_nonzero; discriminate).
  rewrite (N.div_mod x (2 ^ k) Hk) at 1 2. rewrite Hx, N.add_0_r.
  rewrite N.mul_comm, <- N.shiftl_mul_pow2. rewrite lor_shiftl_add by assumption.
  rewrite N.shiftl_mul_pow2. reflexivity.
Qed.

Lemma quantum_value (a b c : N) :
  b < 256 -> c < 256 -> quantum a b c = a * 65536 + b * 256 + c.
Proof.
  intros Hb Hc. unfold quantum. rewrite !N.shiftl_mul_pow2.
  change (2 ^ 16) with 65536. change (2 ^ 8) with 256.
  rewrite (lor_add (a * 65536) (b * 256) 16);
    [|change (2 ^ 16) with 65536; lia|change (2 ^ 16) with 65536; lia].
  rewrite (lor_add _ c 8);
    [reflexivity|change (2 ^ 8) with 256; lia|change (2 ^ 8) with 256; lia].
Qed.

Lemma dquantum_value (s0 s1 s2 s3 : N) :
  s1 < 64 -> s2 < 64 -> s3 < 64 ->
  dquantum s0 s1 s2 s3 = s0 * 262144 + s1 * 4096 + s2 * 64 + s3.
Proof.
  intros H1 H2 H3. unfold dquantum. rewrite !N.shiftl_mul_pow2.
  change (2 ^ 18) with 262144. change (2 ^ 12) with 4096. change (2 ^ 6) with 64.
  rewrite (lor_add (s0 * 262144) (s1 * 4096) 18);
    [|change (2 ^ 18) with 262144; lia|change (2 ^ 18) with 262144; lia].
  rewrite (lor_add _ (s2 * 64) 12);
    [|change (2 ^ 12) with 4096; lia|change (2 ^ 12) with 4096; lia].
  rewrite (lor_add _ s3 6);
    [reflexivity|change (2 ^ 6) with 64; lia|change (2 ^ 6) with 64; lia].
Qed.

(** The six bits at [k] and the eight bits at [k], as quotients. *)
Lemma six_bits (val k : N) : N.land (N.shiftr val k) 63 = (val / 2 ^ k) mod 64.
Proof.
  change 63 with (N.ones 6). rewrite N.land_ones, N.shiftr_div_pow2. reflexivity.
Qed.

Lemma eight_bits (val k : N) : N.land (N.shiftr val k) 255 = (val / 2 ^ k) mod 256.
Proof.
  change 255 with (N.ones 8). rewrite N.land_ones, N.shiftr_div_pow2. reflexivity.
Qed.

Lemma six_bits_lt (val k : N) : N.land (N.shiftr val k) 63 < 64.
Proof. rewrite six_bits. apply N.mod_lt. discriminate. Qed.

Lemma alphabet_entries : forallb alphabet_entry (map N.of_nat (seq 0 64)) = true.
Proof. vm_compute. reflexivity. Qed.

Lemma alphabet_entry_lt (i : N) : i < 64 -> alphabet_entry i = true.
Proof.
  intros Hi. pose proof alphabet_entries as H.
  rewrite forallb_forall in H. apply H.
  rewrite <- (N2Nat.id i). apply in_map, in_seq. lia.
Qed.

Lemma sextet_spec (val k : N) :
  decodeMap (sextet val k) = Some (N.land (N.shiftr val k) 63)
  /\ Ascii.eqb (sextet val k) StdPadding = false
  /\ is_newline (sextet val k) = false.
Proof.
  unfold sextet. pose proof (alphabet_entry_lt _ (six_bits_lt val k)) as H.
  unfold alphabet_entry in H.
  apply andb_true_iff in H as [H Hnl]. apply andb_true_iff in H as [Hd Hp].
  apply negb_true_iff in Hnl, Hp.
  destruct (decodeMap _) as [j|]; [|discriminate].
  apply N.eqb_eq in Hd. subst j. auto.
Qed.

(** The bytes of a quantum come back from its four sextets. *)
Lemma quantum_bytes (x y z : ascii) :
  let val := quantum (N_of_ascii x) (N_of_ascii y) (N_of_ascii z) in
  let d := dquantum (N.land (N.shiftr val 18) 63) (N.land (N.shiftr val 12) 63)
             (N.land (N.shiftr val 6) 63) (N.land (N.shiftr val 0) 63) in
  byte_at d 16 = x /\ byte_at d 8 = y /\ byte_at d 0 = z.
Proof.
  intros val d. pose proof (N_ascii_bounded x). pose proof (N_ascii_bounded y).
  pose proof (N_ascii_bounded z).
  assert (Hd : d = val).
  { unfold d. rewrite dquantum_value by apply six_bits_lt. rewrite !six_bits.
    unfold val. rewrite quantum_value by assumption.
    change (2 ^ 18) with 262144. change (2 ^ 12) with 4096.
    change (2 ^ 6) with 64. change (2 ^ 0) with 1. lia. }
  rewrite Hd. unfold byte_at, val. rewrite !eight_bits, quantum_value by assumption.
  change (2 ^ 16) with 65536. change (2 ^ 8) with 256. change (2 ^ 0) with 1.
  repeat split; rewrite <- ascii_N_embedding; f_equal; lia.
Qed.

Lemma quantum_bytes2 (x y : ascii) :
  let val := quantum (N_of_ascii x) (N_of_ascii y) 0 in
  let d := dquantum (N.land (N.shiftr val 18) 63) (N.land (N.shiftr val 12) 63)
             (N.land (N.shiftr val 6) 63) 0 in
  byte_at d 16 = x /\ byte_at d 8 = y.
Proof.
  intros val d. pose proof (N_ascii_bounded x). pose proof (N_ascii_bounded y).
  unfold d, byte_at, val.
  rewrite dquantum_value by (try apply six_bits_lt; reflexivity).
  rewrite !six_bits, !eight_bits, quantum_value by (try assumption; reflexivity).
  change (2 ^ 18) with 262144. change (2 ^ 12) with 4096. change (2 ^ 6) with 64.
  change (2 ^ 16) with 65536. change (2 ^ 8) with 256.
  repeat split; rewrite <- ascii_N_embedding; f_equal; lia.
Qed.

Lemma quantum_bytes1 (x : ascii) :
  let val := quantum (N_of_ascii x) 0 0 in
  let d := dquantum (N.land (N.shiftr val 18) 63) (N.land (N.shiftr val 12) 63) 0 0 in
  byte_at d 16 = x.
Proof.
  intros val d. pose proof (N_ascii_bounded x).
  unfold d, byte_at, val.
  rewrite dquantum_value by (try apply six_bits_lt; reflexivity).
  rewrite !six_bits, !eight_bits, quantum_value by reflexivity.
  change (2 ^ 18) with 262144. change (2 ^ 12) with 4096.
  change (2 ^ 16) with 65536.
  rewrite <- ascii_N_embedding; f_equal; lia.
Qed.

(** Induction on a list three elements at a time. *)
Lemma list_ind3 {A : Type} (P : list A -> Prop) :
  P [] -> (forall a, P [a]) -> (forall a b, P [a; b]) ->
  (forall a b c l, P l -> P (a :: b :: c :: l)) ->
  forall l, P l.
Proof.
  intros H0 H1 H2 H3. fix IH 1.
  intros [|a [|b [|c l]]]; [exact H0|apply H1|apply H2|apply H3, IH].
Qed.

Lemma decode_quanta_encode (src : bytes) :
  decode_quanta (list_ascii_of_string (EncodeToString src)) = Some src.
Proof.
  induction src as [|x|x y|x y z rest IH] using list_ind3;
    cbn [EncodeToString list_ascii_of_string decode_quanta].
  - reflexivity.
  - destruct (sextet_spec (quantum (N_of_ascii x) 0 0) 18) as (-> & _ & _).
    destruct (sextet_spec (quantum (N_of_ascii x) 0 0) 12) as (-> & _ & _).
    rewrite Ascii.eqb_refl. rewrite (quantum_bytes1 x). reflexivity.
  - destruct (sextet_spec (quantum (N_of_ascii x) (N_of_ascii y) 0) 18) as (-> & _ & _).
    destruct (sextet_spec (quantum (N_of_ascii x) (N_of_ascii y) 0) 12) as (-> & _ & _).
    destruct (sextet_spec (quantum (N_of_ascii x) (N_of_ascii y) 0) 6) as (-> & -> & _).
    rewrite Ascii.eqb_refl.
    destruct (quantum_bytes2 x y) as (-> & ->). reflexivity.
  - set (val := quantum (N_of_ascii x) (N_of_ascii y) (N_of_ascii z)).
    destruct (sextet_spec val 18) as (-> & _ & _).
    destruct (sextet_spec val 12) as (-> & _ & _).
    destruct (sextet_spec val 6) as (-> & -> & _).
    destruct (sextet_spec val 0) as (-> & -> & _).
    rewrite IH. unfold val. destruct (quantum_bytes x y z) as (-> & -> & ->). reflexivity.
Qed.

Lemma encode_no_newline (src : bytes) :
  List.filter (fun c => negb (is_newline c)) (list_ascii_of_string (EncodeToString src))
  = list_ascii_of_string (EncodeToString src).
Proof.
  induction src as [|x|x y|x y z rest IH] using list_ind3;
    cbn [EncodeToString list_ascii_of_string List.filter].
  - reflexivity.
  - destruct (sextet_spec (quantum (N_of_ascii x) 0 0) 18) as (_ & _ & ->).
    destruct (sextet_spec (quantum (N_of_ascii x) 0 0) 12) as (_ & _ & ->).
    reflexivity.
  - destruct (sextet_spec (quantum (N_of_ascii x) (N_of_ascii y) 0) 18) as (_ & _ & ->).
    destruct (sextet_spec (quantum (N_of_ascii x) (N_of_ascii y) 0) 12) as (_ & _ & ->).
    destruct (sextet_spec (quantum (N_of_ascii x) (N_of_ascii y) 0) 6) as (_ & _ & ->).
    reflexivity.
  - set (val := quantum (N_of_ascii x) (N_of_ascii y) (N_of_ascii z)).
    destruct (sextet_spec val 18) as (_ & _ & ->).
    destruct (sextet_spec val 12) as (_ & _ & ->).
    destruct (sextet_spec val 6) as (_ & _ & ->).
    destruct (sextet_spec val 0) as (_ & _ & ->).
    cbn [negb]. rewrite IH. reflexivity.
Qed.

(** Decoding the encoding of a byte sequence gives the sequence. *)
Lemma DecodeString_EncodeToString (src : bytes) :
  DecodeString (EncodeToString src) = inl src.
Proof.
  unfold DecodeString. rewrite encode_no_newline, decode_quanta_encode. reflexivity.
Qed.

End Base64.

(** ** The stored-block codec is lossless *)

Section StoredCodec.

Import stored.
Local Open Scope N_scope.

Ltac Zify.zify_post_hook ::= Z.to_euclidean_division_equations.

Lemma of_le_le2 (v : N) : v < 65536 -> of_le (le 2 v) = v.
Proof.
  intros Hv. cbn [le of_le].
  rewrite !N_ascii_embedding by (apply N.mod_lt; discriminate). lia.
Qed.

(** Reading one stored block. *)
Lemma inflate_block (final : N) (chunk rest : bytes) (fuel : nat) :
  size chunk <= blockMax -> final <= 1 ->
  inflate (S fuel) (block final chunk ++ rest)
  = if final =? 1 then Some (chunk, rest)
    else match inflate fuel rest with
         | Some (more, tail) => Some (chunk ++ more, tail)
         | None => None
         end.
Proof.
  intros Hsize Hfinal. unfold blockMax in *.
  pose proof (of_le_le2 (size chunk)) as Hlen.
  pose proof (of_le_le2 (65535 - size chunk)) as Hnlen.
  unfold block, blockMax. cbn [le app] in *. cbn [inflate].
  rewrite Hlen, Hnlen by lia.
  rewrite N_ascii_embedding by lia.
  replace (final <=? 1) with true by (symmetry; apply N.leb_le; assumption).
  replace (size chunk + (65535 - size chunk) =? blockMax) with true
    by (symmetry; apply N.eqb_eq; unfold blockMax; lia).
  replace (size chunk <=? size (chunk ++ rest)) with true
    by (symmetry; apply N.leb_le; unfold size; rewrite length_app; lia).
  cbn [andb]. unfold size. rewrite Nat2N.id.
  rewrite take_app_length, drop_app_length. reflexivity.
Qed.

Lemma inflate_deflate (fuel : nat) :
  forall (data tail : bytes) (fuel' : nat),
    size data <= N.of_nat fuel + blockMax ->
    (length data < fuel')%nat ->
    inflate fuel' (deflate fuel data ++ tail) = Some (data, tail).
Proof.
  induction fuel as [|fuel IH]; intros data tail fuel' Hsize Hfuel;
    (destruct fuel' as [|fuel']; [lia|]); cbn [deflate].
  - rewrite inflate_block by (unfold size in *; lia). reflexivity.
  - destruct (N.leb_spec (size data) blockMax) as [Hle|Hgt].
    + rewrite inflate_block by (unfold size in *; lia). reflexivity.
    + rewrite <- app_assoc, inflate_block;
        [|unfold size, blockMax in *; rewrite length_take; lia|discriminate].
      change (0 =? 1) with false. cbv iota.
      rewrite IH; [rewrite take_drop; reflexivity| |];
        unfold size, blockMax in *; rewrite length_drop; lia.
Qed.

Lemma length_deflate (fuel : nat) :
  forall data : bytes, (length data < length (deflate fuel data))%nat.
Proof.
  induction fuel as [|fuel IH]; intros data; cbn [deflate].
  - unfold block. cbn [le app length]. rewrite ?length_app. cbn [length]. lia.
  - destruct (size data <=? blockMax).
    + unfold block. cbn [le app length]. rewrite ?length_app. cbn [length]. lia.
    + rewrite length_app. unfold block. cbn [le app length].
      pose proof (IH (drop (N.to_nat blockMax) data)) as Hd.
      rewrite length_drop in Hd. rewrite ?length_app, length_take. lia.
Qed.

(** The codec gives back what it compressed. *)
Lemma stored_lossless : gzip.lossless codec.
Proof.
  intros data. exists (deflate (length data) data ++ trailer data). split.
  - cbn [gzip.NewReader gzip.Compress codec]. unfold NewReader, Compress.
    rewrite take_app_length' by reflexivity.
    rewrite drop_app_length' by reflexivity.
    rewrite decide_True by reflexivity. reflexivity.
  - cbn [gzip.ReadAll codec]. unfold ReadAll.
    rewrite inflate_deflate;
      [|unfold size, blockMax; lia
       |rewrite length_app; pose proof (length_deflate (length data) data); lia].
    rewrite decide_True by reflexivity. reflexivity.
Qed.

End StoredCodec.

(** ** cvmfs: packing and unpacking a script *)

Section Scripts.

Import cvmfs.

Lemma read_input_chunks (chs : list bytes) :
  forall input : bytes,
    Forall (fun c => c <> []) chs ->
    read_input (map (fun c => (c, None)) chs) input = inl (input ++ concat chs).
Proof.
  induction chs as [|c chs IH]; intros input Hne; cbn [map read_input concat].
  - rewrite app_nil_r. reflexivity.
  - apply Forall_cons in Hne as [Hc Hrest].
    destruct c as [|x c]; [congruence|].
    rewrite IH by assumption. rewrite app_assoc. reflexivity.
Qed.

Lemma chunks_spec (size : nat) (fuel : nat) :
  (0 < size)%nat ->
  forall data : bytes,
    (length data <= fuel)%nat ->
    Forall (fun c => c <> []) (chunks fuel size data)
    /\ concat (chunks fuel size data) = data.
Proof.
  intros Hsize. induction fuel as [|fuel IH]; intros data Hlen.
  - destruct data; [split; [constructor|reflexivity]|simpl in Hlen; lia].
  - cbn [chunks]. destruct data as [|x data]; [split; [constructor|reflexivity]|].
    destruct (IH (drop size (x :: data))) as [Hne Hcat].
    { rewrite length_drop. simpl in *. lia. }
    split.
    + constructor; [|exact Hne]. destruct size; [lia|]. discriminate.
    + cbn [concat]. rewrite Hcat. apply take_drop.
Qed.

(** The read loop gets the whole content of a file. *)
Lemma read_input_file (data : bytes) : read_input (file_reads data) [] = inl data.
Proof.
  unfold file_reads.
  destruct (chunks_spec bufSize (length data)) with (data := data) as [Hne Hcat];
    [unfold bufSize; lia|lia|].
  rewrite read_input_chunks by assumption. rewrite Hcat. reflexivity.
Qed.

(** C3. With a lossless gzip, packing the content of a file and unpacking
    the resulting string writes exactly the content: both calls succeed and
    the destination receives the original bytes. *)
Theorem unpackScript_packScript (gz : gzip.Codec) (data : bytes) (dest : Writer) :
  gzip.lossless gz ->
  write_fault dest = None ->
  exists body,
    packScript gz (file_reads data) = inl body
    /\ unpackScript gz body dest = (mkWriter (written dest ++ data) None, None).
Proof.
  intros Hgz Hdest. unfold packScript. rewrite read_input_file.
  eexists. split; [reflexivity|].
  unfold unpackScript. rewrite DecodeString_EncodeToString.
  destruct (Hgz data) as (r & -> & ->).
  unfold Write. rewrite Hdest. reflexivity.
Qed.










End Scripts.

(** ** Concrete runs *)

Section Runs.

Import Examples.

Lemma PutJob_scanRow_dependencies_witness : jobdb.scanRow (jobdb.row_of job_c) = inl job_c.
Proof.
  assert (Hdeps : jobdb.plain_deps (job.Dependencies job_c)).
  { repeat constructor; discriminate. }
  destruct (PutJob_scanRow_dependencies db job_c Hdeps eq_refl eq_refl eq_refl)
    as (b' & _ & _ & _ & H & _).
  exact H.
Defined.

(** C5 fails on [GetJob]: the job "a" is stored, and the connection breaks
    before its row is fetched, so [rows.Next()] returns false with the error
    left in [rows.Err()], which [GetJob] does not read. The reply is the one
    of an unknown ID: status ok, empty reason, no entries, nil error. *)
Theorem GetJob_fetch_failure_as_not_found :
  jobdb.selected (db_cut 0) ["a"] = [row_a]
  /\ jobdb.db_Query (db_cut 0) jobdb.GetJob_query [Some "a"]
     = inl (jobdb.mkRows [] (Some "unexpected EOF"))
  /\ jobdb.GetJob (db_cut 0) "a" true = (job.mkGetJobReply "ok" "" [] [], None)
  /\ jobdb.GetJob (db_cut 0) "a" false = (job.mkGetJobReply "ok" "" [] [], None)
  /\ jobdb.GetJob db "c" true = (job.mkGetJobReply "ok" "" [] [], None).
Proof. repeat split. Qed.

(** C2 fails on [GetJobs]: both jobs of the batch are stored, and the
    connection breaks after the first row is fetched, so the loop
    [for rows.Next()] ends with the error left in [rows.Err()], which
    [GetJobs] does not read. The reply has status ok and the first job
    only, and the error is nil: a partial result of a failed query. *)
Theorem GetJobs_partial_after_fetch_failure :
  jobdb.selected (db_cut 1) ["a"; "d"] = [row_a; row_d]
  /\ jobdb.db_Query (db_cut 1) (jobdb.GetJobs_query ["a"; "d"]) [Some "a"; Some "d"]
     = inl (jobdb.mkRows [row_a] (Some "unexpected EOF"))
  /\ jobdb.GetJobs (db_cut 1) ["a"; "d"] true
     = Returned (job.mkGetJobReply "ok" "" [] [job_a], None)
  /\ jobdb.GetJobs (db_cut 1) ["a"; "d"] false
     = Returned (job.mkGetJobReply "ok" "" [job.mkStatus "a" true] [], None).
Proof. repeat split. Qed.

Lemma Run_rejects_unparseable_witness :
  consume.Run_iteration unmarshal_strict mkdir_ok get_ok transaction_fails
    (start [consume.mkDelivery [] false; job_message])
  = Some (consume.mkLoop tt (consume.mkDescription "" "" "" "") [job_message]
            [consume.Nack (consume.mkDelivery [] false) false false]).
Proof.
  apply (Run_rejects_unparseable unit unmarshal_strict mkdir_ok get_ok transaction_fails
           (start [consume.mkDelivery [] false; job_message])
           (consume.mkDelivery [] false) [job_message]
           (consume.mkDescription "" "" "" "") "unexpected end of JSON input"
           eq_refl eq_refl).
Defined.

Lemma Run_requeues_failed_transaction_witness :
  consume.Run_iteration unmarshal_strict mkdir_ok get_ok transaction_fails
    (start [job_message])
  = Some (consume.mkLoop tt job_description
            [consume.mkDelivery (consume.Body job_message) true]
            [consume.Nack job_message false true]).
Proof.
  apply (proj1 (Run_requeues_failed_transaction unit unmarshal_strict mkdir_ok get_ok
                  transaction_fails (start [job_message]) job_message []
                  job_description tt
                  eq_refl eq_refl) "could not open transaction" eq_refl).
Defined.

(** C1 fails on [Run]: a job message that unmarshals and whose transaction
    fails at every delivery has, after ten deliveries, been rejected with
    requeue ten times and with nothing else, it has not been acknowledged,
    and it is still on the queue, to be delivered again. *)
Theorem Run_requeues_ten_times :
  consume.requeues (consume.settled (failing_run 10)) = 10%nat
  /\ length (consume.settled (failing_run 10)) = 10%nat
  /\ consume.acks (consume.settled (failing_run 10)) = 0%nat
  /\ consume.queue (failing_run 10)
     = [consume.mkDelivery (consume.Body job_message) true].
Proof. vm_compute. repeat split. Qed.

Lemma Prepare_leading_slash_witness :
  exists spec' err,
    cvmfs.Prepare stored.codec ∅ spec_foo = Returned (spec', err)
    /\ cvmfs.RepositoryPath spec' = "/foo".
Proof.
  destruct (Prepare_leading_slash stored.codec ∅ spec_foo) as (spec' & err & Hret & _ & Hadd & _).
  - discriminate.
  - exists spec', err. split; [exact Hret|]. apply Hadd. reflexivity.
Defined.

Lemma unpackScript_packScript_witness :
  exists body,
    cvmfs.packScript stored.codec (cvmfs.file_reads script_text) = inl body
    /\ cvmfs.unpackScript stored.codec body (cvmfs.mkWriter [] None)
       = (cvmfs.mkWriter script_text None, None).
Proof.
  apply (unpackScript_packScript stored.codec script_text (cvmfs.mkWriter [] None)
           stored_lossless eq_refl).
Defined.

Lemma MaxJobDuration_timeout_witness :
  worker.execute 7201 None
  = worker.mkFinalized worker.Aborted false (Some worker.ErrTimeout).
Proof.
  apply (proj1 (proj2 (proj2 MaxJobDuration_timeout))). reflexivity.
Defined.

(** C7 fails on [process]: the unpacked script is written to
    [transaction.sh] in the temporary directory, but the file [os.Create]
    made has mode 0644 under umask 022, without an execute bit, and
    starting it fails with permission denied. *)
Theorem process_script_file_not_executable :
  snd (cvmfs.process stored.codec machine transfer_job tempDir)
  = Some "running transaction script failed: fork/exec /tmp/conveyor-worker/transaction.sh: permission denied"
  /\ cvmfs.fs (fst (cvmfs.process stored.codec machine transfer_job tempDir))
       !! "/tmp/conveyor-worker/transaction.sh"
     = Some (cvmfs.mkFile 420 script_text)
  /\ Z.land 420 73 = 0%Z.
Proof. vm_compute. repeat split. Qed.

End Runs.

(** * Further properties *)

(** ** jobdb: lookups, batches, inserts *)

Section JobDBMore.

Import jobdb.

Lemma scanRow_processed_of (r : Row) :
  scanRow r = match scan_fault r with
              | Some err => inr err
              | None => inl (processed_of r)
              end.
Proof. unfold scanRow, processed_of. destruct (scan_fault r); reflexivity. Qed.

Lemma selected_ID (b : Backend) (ids : list string) (r : Row) :
  r ∈ selected b ids -> col_ID r ∈ ids /\ r ∈ table b.
Proof. unfold selected. rewrite list_elem_of_filter. tauto. Qed.

(** X1. When the query succeeds and the first row it returns scans,
    [GetJob] answers with status ok and a nil error, and reports that row
    alone: in full mode as the one job of [Jobs], with [IDs] empty, in
    brief mode as the one status of [IDs], with [Jobs] empty; the job
    reported has the ID that was asked for. *)
Theorem GetJob_found (b : Backend) (id : string) (full : bool) (r : Row) :
  query_fault b GetJob_query [Some id] = None ->
  head (selected b [id]) = Some r ->
  scan_fault r = None ->
  job.ID (processed_of r) = id
  /\ GetJob b id full
     = (if full
        then job.mkGetJobReply "ok" "" [] [processed_of r]
        else job.mkGetJobReply "ok" "" [status_of (processed_of r)] [],
        None).
Proof.
  intros Hq Hhead Hscan. rewrite GetJob_unfold, Hq, (fetched_ok _ _ _ _ Hq).
  destruct (selected b [id]) as [|r' rows] eqn:Hsel; [discriminate|].
  injection Hhead as ->. split.
  - assert (Hin : r ∈ selected b [id]) by (rewrite Hsel; apply list_elem_of_here).
    apply selected_ID in Hin as [Hin _].
    apply list_elem_of_singleton in Hin. exact Hin.
  - rewrite Hscan, scanRow_processed_of, Hscan. destruct full; reflexivity.
Qed.

(** X2. [PutJob] is all or nothing: either it returns a nil error with
    status ok and the table has exactly one more row, the job's, at its
    end, or it returns an error with status error and the database is as
    it was. *)
Theorem PutJob_atomic (b : Backend) (j : job.Processed) :
  let '(b', reply, err) := PutJob b j in
  (err = None /\ job.PutStatus reply = "ok" /\ job.PutReason reply = ""
   /\ table b' = table b ++ [row_of j])
  \/ (err <> None /\ job.PutStatus reply = "error" /\ b' = b).
Proof.
  unfold PutJob.
  destruct (begin_fault b); [right; repeat split; discriminate|].
  destruct (exec_fault b (row_of j)); [right; repeat split; discriminate|].
  destruct (commit_fault b); [right; repeat split; discriminate|].
  left. repeat split.
Qed.

Lemma selected_after_insert (b : Backend) (j : job.Processed) (ids : list string) :
  selected (with_table b (table b ++ [row_of j])) ids
  = selected b ids ++ (if decide (job.ID j ∈ ids) then [row_of j] else []).
Proof.
  unfold selected. cbn [table with_table]. rewrite filter_app. reflexivity.
Qed.

(** X3. A job stored by [PutJob] is found again: for a job with plain
    dependencies whose ID no row has yet, after a [PutJob] that succeeds,
    [GetJob] of its ID returns the very job in full mode and its ID with
    its success flag in brief mode. *)
Theorem GetJob_after_PutJob (b : Backend) (j : job.Processed) :
  plain_deps (job.Dependencies j) ->
  absent b (job.ID j) ->
  begin_fault b = None -> exec_fault b (row_of j) = None -> commit_fault b = None ->
  query_fault b GetJob_query [Some (job.ID j)] = None ->
  exists b',
    PutJob b j = (b', job.mkPutJobReply "ok" "", None)
    /\ GetJob b' (job.ID j) true = (job.mkGetJobReply "ok" "" [] [j], None)
    /\ GetJob b' (job.ID j) false
       = (job.mkGetJobReply "ok" "" [job.mkStatus (job.ID j) (job.Successful j)] [],
          None).
Proof.
  intros Hdeps Habs Hb He Hc Hq. unfold PutJob. rewrite Hb, He, Hc.
  eexists. split; [reflexivity|].
  assert (Hsel : selected (with_table b (table b ++ [row_of j])) [job.ID j] = [row_of j]).
  { rewrite selected_after_insert, (selected_absent _ _ Habs).
    rewrite decide_True by apply list_elem_of_here. reflexivity. }
  split; rewrite GetJob_unfold; unfold fetched; cbn [query_fault with_table];
    rewrite Hq, Hsel; cbn [scan_fault row_of]; rewrite (scanRow_row_of _ Hdeps);
    reflexivity.
Qed.

(** X4. [PutJob] does not disturb the other jobs: whatever its outcome,
    [GetJob] of an ID other than the job's gives afterwards what it gave
    before. *)
Theorem PutJob_keeps_other_jobs (b : Backend) (j : job.Processed) (id : string) (full : bool) :
  id <> job.ID j ->
  GetJob (fst (fst (PutJob b j))) id full = GetJob b id full.
Proof.
  intros Hne. unfold PutJob.
  destruct (begin_fault b); [reflexivity|].
  destruct (exec_fault b (row_of j)); [reflexivity|].
  destruct (commit_fault b); [reflexivity|].
  cbn [fst]. rewrite !GetJob_unfold. unfold fetched. cbn [query_fault with_table].
  rewrite selected_after_insert.
  rewrite decide_False by (rewrite list_elem_of_singleton; congruence).
  rewrite app_nil_r. reflexivity.
Qed.

(** [GetJobs] panics exactly on the empty batch. *)
Lemma GetJobs_returns (b : Backend) (ids : list string) (full : bool) :
  ids <> [] -> exists r, GetJobs b ids full = Returned r.
Proof.
  intros Hne. rewrite (GetJobs_unfold _ _ _ Hne).
  destruct (query_fault b _ _) as [[err|n err]|]; eexists; reflexivity.
Qed.

(** X5. [GetJobs] panics (slice bounds out of range) exactly when the
    batch of IDs is empty; for every other batch it returns. *)
Theorem GetJobs_panics_iff_empty (b : Backend) (ids : list string) (full : bool) :
  (ids = [] <-> exists msg, GetJobs b ids full = Panicked msg)
  /\ (ids <> [] <-> exists r, GetJobs b ids full = Returned r).
Proof.
  destruct ids as [|id ids].
  - split; split; try congruence.
    + intros _. eexists. reflexivity.
    + intros [r Hr]. discriminate.
  - destruct (GetJobs_returns b (id :: ids) full) as [r Hr]; [discriminate|].
    split; split; try congruence.
    + intros [msg Hm]. congruence.
    + intros _. exists r. exact Hr.
Qed.

Lemma scanRows_all (rows : list Row) (full : bool) :
  Forall (fun r => scan_fault r = None) rows ->
  forall reply,
    scanRows rows full reply
    = (if full
       then job.mkGetJobReply (job.ReplyStatus reply) (job.Reason reply)
              (job.IDs reply) (job.Jobs reply ++ (processed_of <$> rows))
       else job.mkGetJobReply (job.ReplyStatus reply) (job.Reason reply)
              (job.IDs reply ++ (status_of <$> (processed_of <$> rows)))
              (job.Jobs reply),
       None).
Proof.
  induction rows as [|r rows IH]; intros Hall reply; cbn [scanRows fmap list_fmap].
  - rewrite !app_nil_r. destruct reply, full; reflexivity.
  - apply Forall_cons in Hall as [Hr Hrest].
    rewrite scanRow_processed_of, Hr, (IH Hrest).
    destruct full; cbn [job.ReplyStatus job.Reason job.IDs job.Jobs];
      rewrite <- app_assoc; reflexivity.
Qed.

Lemma GetJobs_scanned (b : Backend) (ids : list string) (full : bool) :
  ids <> [] ->
  query_fault b (GetJobs_query ids) (Some <$> ids) = None ->
  Forall (fun r => scan_fault r = None) (selected b ids) ->
  GetJobs b ids full
  = Returned
      (if full
       then job.mkGetJobReply "ok" "" [] (processed_of <$> selected b ids)
       else job.mkGetJobReply "ok" ""
              (status_of <$> (processed_of <$> selected b ids)) [],
       None).
Proof.
  intros Hne Hq Hall. rewrite (GetJobs_unfold _ _ _ Hne), Hq, (fetched_ok _ _ _ _ Hq).
  rewrite (scanRows_all _ _ Hall). destruct full; reflexivity.
Qed.

(** X6. When the query succeeds and every returned row scans, the reply of
    [GetJobs] for a non-empty batch has status ok and a nil error and holds
    exactly the stored rows whose ID is in the batch, in the order of the
    table: as jobs in full mode (and then no IDs), as statuses in brief mode
    (and then no jobs). IDs of the batch that no row has are left out
    without an error. *)
Theorem GetJobs_rows (b : Backend) (ids : list string) (full : bool) :
  ids <> [] ->
  query_fault b (GetJobs_query ids) (Some <$> ids) = None ->
  Forall (fun r => scan_fault r = None) (selected b ids) ->
  GetJobs b ids full
  = Returned
      (if full
       then job.mkGetJobReply "ok" "" [] (processed_of <$> selected b ids)
       else job.mkGetJobReply "ok" ""
              (status_of <$> (processed_of <$> selected b ids)) [],
       None).
Proof. apply GetJobs_scanned. Qed.

(** X7. A batch of IDs none of which is stored is not an error: when the
    query succeeds [GetJobs] returns the reply with status ok, no IDs and
    no jobs, and a nil error. *)
Theorem GetJobs_unknown_ids (b : Backend) (ids : list string) (full : bool) :
  ids <> [] ->
  query_fault b (GetJobs_query ids) (Some <$> ids) = None ->
  Forall (fun id => absent b id) ids ->
  GetJobs b ids full = Returned (job.mkGetJobReply "ok" "" [] [], None).
Proof.
  intros Hne Hq Habs.
  assert (Hsel : selected b ids = []).
  { unfold selected, absent in *. induction (table b) as [|r t IH]; [reflexivity|].
    rewrite filter_cons_False.
    - apply IH. eapply Forall_impl; [exact Habs|].
      intros id Hid. apply Forall_cons in Hid as [_ Hid]. exact Hid.
    - intros Hin. rewrite Forall_forall in Habs.
      specialize (Habs _ Hin). apply Forall_cons in Habs as [Hr _]. congruence. }
  rewrite GetJobs_scanned by (try assumption; rewrite Hsel; constructor).
  rewrite Hsel. destruct full; reflexivity.
Qed.

End JobDBMore.

(** ** jobdb: which dependency lists survive the database *)

Section Dependencies.

Import jobdb strings.

Lemma Split_length (c : ascii) (s : string) :
  length (Split s c) = S (count_byte c s).
Proof.
  induction s as [|a s IH]; cbn [Split count_byte]; [reflexivity|].
  destruct (Ascii.eqb a c).
  - cbn [length]. rewrite IH. reflexivity.
  - destruct (Split s c) as [|piece pieces]; [discriminate|].
    cbn [length] in *. lia.
Qed.

Lemma count_byte_append (c : ascii) (a b : string) :
  count_byte c (a +:+ b) = (count_byte c a + count_byte c b)%nat.
Proof.
  induction a as [|x a IH]; simpl; [reflexivity|].
  rewrite IH. lia.
Qed.

Lemma count_byte_Join (deps : list string) :
  deps <> [] ->
  S (count_byte comma (Join deps ","))
  = (length deps + sum_list (count_byte comma <$> deps))%nat.
Proof.
  induction deps as [|a deps IH]; [congruence|]. intros _.
  destruct deps as [|b deps].
  - cbn. lia.
  - change (Join (a :: b :: deps) ",") with (a +:+ String comma (Join (b :: deps) ",")).
    rewrite count_byte_append. cbn [count_byte]. rewrite Ascii.eqb_refl.
    specialize (IH ltac:(discriminate)).
    cbn [length fmap list_fmap sum_list sum_list_with] in *. unfold id in *. lia.
Qed.

Lemma count_byte_none (c : ascii) (s : string) :
  count_byte c s = 0%nat <-> contains_byte c s = false.
Proof.
  induction s as [|a s IH]; cbn [count_byte contains_byte]; [tauto|].
  destruct (Ascii.eqb a c); cbn [orb]; [split; [lia|discriminate]|].
  rewrite <- IH. split; lia.
Qed.

Lemma sum_list_zero (l : list nat) : sum_list l = 0%nat -> Forall (fun n => n = 0%nat) l.
Proof.
  induction l as [|n l IH]; [constructor|]. cbn. intros H.
  constructor; [lia|apply IH; lia].
Qed.

Lemma Join_empty_cases (deps : list string) :
  Join deps "," = "" -> deps = [] \/ deps = [""].
Proof.
  destruct deps as [|a [|b deps]]; [auto| |].
  - cbn. intros ->. auto.
  - change (Join (a :: b :: deps) ",") with (a +:+ String comma (Join (b :: deps) ",")).
    destruct a; discriminate.
Qed.

(** Splitting the joined list gives the list back only if no element has
    a comma. *)
Lemma Split_Join_only_if (deps : list string) :
  Split (Join deps ",") comma = deps ->
  Forall (fun d => contains_byte comma d = false) deps.
Proof.
  intros H. destruct deps as [|a deps]; [constructor|].
  apply (f_equal length) in H. rewrite Split_length in H.
  rewrite count_byte_Join in H by discriminate.
  assert (Hz : sum_list (count_byte comma <$> (a :: deps)) = 0%nat) by lia.
  apply sum_list_zero in Hz. rewrite Forall_fmap in Hz.
  eapply Forall_impl; [exact Hz|]. intros d Hd. apply count_byte_none, Hd.
Qed.

(** X8. The dependencies of a job survive [PutJob]'s join and [scanRow]'s
    split exactly when no dependency contains a comma and the list is not
    the single empty string: [scanRow] of the row [PutJob] stores gives the
    job back if and only if that holds. *)
Theorem scanRow_row_of_iff (j : job.Processed) :
  scanRow (row_of j) = inl j
  <-> Forall (fun d => contains_byte comma d = false) (job.Dependencies j)
      /\ job.Dependencies j <> [""].
Proof.
  destruct j as [id repo pay rp sc sa ts deps t0 t1 ok msg].
  unfold scanRow, row_of. cbn -[Join Split decide]. split.
  - intros H. injection H as H.
    case_decide as Hempty.
    + subst deps. split; [constructor|discriminate].
    + split; [apply Split_Join_only_if, H|].
      intros ->. apply Hempty. reflexivity.
  - intros [Hfree Hne]. do 2 f_equal.
    case_decide as Hempty.
    + apply Join_empty_cases in Hempty as [->| ->]; [reflexivity|congruence].
    + apply Split_Join; [|exact Hfree]. intros ->. apply Hempty. reflexivity.
Qed.

End Dependencies.

(** ** consume: every delivery is settled once *)

Section ConsumerMore.

Import consume.

Variable W : Type.
Variable json_Unmarshal : bytes -> Description -> Description * option error.
Variable os_MkdirAll : W -> string -> W * option error.
Variable getter_GetFile : W -> string -> string -> W * option error.
Variable transaction_Run :
  W -> Description -> (W -> W * option error) -> W * option error.

Let iteration := Run_iteration json_Unmarshal os_MkdirAll getter_GetFile transaction_Run.
Let loop := Run json_Unmarshal os_MkdirAll getter_GetFile transaction_Run.

(** X9. An iteration of the loop settles the delivery at the head of the
    queue exactly once: it sends one settlement, for that delivery. The
    settlement is an [Ack] exactly when the body unmarshalled and the
    transaction returned no error, and then the message has left the
    queue; it is a rejection with requeue exactly when the body
    unmarshalled and the transaction failed. *)
Theorem Run_iteration_settles_head (st : Loop W) (j : Delivery) (rest : list Delivery) :
  queue st = j :: rest ->
  let parsed := json_Unmarshal (Body j) (desc st) in
  let ran := transaction_Run (world st) (fst parsed)
               (task os_MkdirAll getter_GetFile (fst parsed)) in
  exists st' s,
    iteration st = Some st'
    /\ settled st' = settled st ++ [s]
    /\ delivery_of s = j
    /\ (is_Ack s = true <-> snd parsed = None /\ snd ran = None)
    /\ (is_requeue s = true <-> snd parsed = None /\ snd ran <> None)
    /\ (is_Ack s = true -> queue st' = rest).
Proof.
  intros Hq parsed ran. unfold iteration, Run_iteration. rewrite Hq.
  subst ran parsed.
  destruct (json_Unmarshal (Body j) (desc st)) as [d [ue|]]; cbn [fst snd].
  - do 2 eexists. split; [reflexivity|]. cbn.
    repeat split; try reflexivity; try discriminate; intros [? ?]; discriminate.
  - destruct (transaction_Run (world st) d (task os_MkdirAll getter_GetFile d))
      as [w [te|]]; cbn [fst snd];
      do 2 eexists; (split; [reflexivity|]); cbn;
      repeat split; try reflexivity; try discriminate; try congruence;
      intros [? ?]; congruence.
Qed.

Lemma answers_deliveries (d : Description) (q : list Delivery) :
  delivery_of <$> answers json_Unmarshal d q = q.
Proof.
  revert d. induction q as [|j rest IH]; intros d; [reflexivity|].
  cbn [answers]. destruct (json_Unmarshal (Body j) d) as [d' [e|]];
    cbn; rewrite IH; reflexivity.
Qed.

(** X10. In a run where no transaction fails, the loop settles every
    queued delivery exactly once and in order, and empties the queue: after
    as many iterations as there are messages, the settlements sent are, one
    per message, [Nack(false, false)] for a body that does not unmarshal
    (with the variable [desc] as the earlier messages left it) and
    [Ack(false)] for the others; none is a requeue. *)
Theorem Run_settles_each_once (fuel : nat) :
  forall st : Loop W,
    transactions_succeed json_Unmarshal os_MkdirAll getter_GetFile transaction_Run
      (world st) (desc st) (queue st) ->
    (length (queue st) <= fuel)%nat ->
    settled (loop fuel st) = settled st ++ answers json_Unmarshal (desc st) (queue st)
    /\ delivery_of <$> answers json_Unmarshal (desc st) (queue st) = queue st
    /\ Forall (fun s => is_requeue s = false) (answers json_Unmarshal (desc st) (queue st))
    /\ queue (loop fuel st) = [].
Proof.
  intros st Htx Hlen. split; [|split; [apply answers_deliveries|split]].
  - revert st Htx Hlen. induction fuel as [|fuel IH]; intros st Htx Hlen.
    + destruct (queue st) eqn:Hq; [|simpl in Hlen; lia].
      cbn. rewrite app_nil_r. reflexivity.
    + unfold loop in *. cbn [Run]. unfold Run_iteration.
      destruct (queue st) as [|j rest] eqn:Hq; [cbn; rewrite app_nil_r; reflexivity|].
      cbn [answers transactions_succeed] in *.
      destruct (json_Unmarshal (Body j) (desc st)) as [d [ue|]].
      * match goal with |- context [Run _ _ _ _ fuel ?s] => rewrite (IH s) end;
          cbn [settled queue world desc length] in *; [|assumption|lia].
        rewrite <- app_assoc. reflexivity.
      * destruct Htx as (w & Ht & Hrest). rewrite Ht.
        match goal with |- context [Run _ _ _ _ fuel ?s] => rewrite (IH s) end;
          cbn [settled queue world desc length] in *; [|assumption|lia].
        rewrite <- app_assoc. reflexivity.
  - clear Htx Hlen. generalize (desc st). induction (queue st) as [|j rest IH]; intros d.
    + constructor.
    + cbn [answers]. destruct (json_Unmarshal (Body j) d) as [d' [e|]];
        constructor; auto.
  - revert st Htx Hlen. induction fuel as [|fuel IH]; intros st Htx Hlen.
    + destruct (queue st) eqn:Hq; [|simpl in Hlen; lia]. exact Hq.
    + unfold loop in *. cbn [Run]. unfold Run_iteration.
      destruct (queue st) as [|j rest] eqn:Hq; [exact Hq|].
      cbn [transactions_succeed] in *.
      destruct (json_Unmarshal (Body j) (desc st)) as [d [ue|]].
      * apply IH; cbn [settled queue world desc length] in *; [assumption|lia].
      * destruct Htx as (w & Ht & Hrest). rewrite Ht.
        apply IH; cbn [settled queue world desc length] in *; [assumption|lia].
Qed.

End ConsumerMore.

(** ** cvmfs: more on Prepare *)

Section PrepareMore.

Import cvmfs.

Variable gz : gzip.Codec.
Variable files : gmap string File.

(** X11. [Prepare] changes nothing but [RepositoryPath] and [Script]: the
    other fields of the specification it returns are those it was given.
    [Script] itself is left as it was whenever the script is not
    transferred ([TransferScript] unset, or no script), and then no error
    is returned; it is also left as it was whenever an error is
    returned. *)
Theorem Prepare_keeps_fields (spec spec' : JobSpecification) (err : option error) :
  Prepare gz files spec = Returned (spec', err) ->
  Repository spec' = Repository spec
  /\ Payload spec' = Payload spec
  /\ ScriptArgs spec' = ScriptArgs spec
  /\ TransferScript spec' = TransferScript spec
  /\ Dependencies spec' = Dependencies spec
  /\ (TransferScript spec = false \/ Script spec = "" ->
      Script spec' = Script spec /\ err = None)
  /\ (err <> None -> Script spec' = Script spec).
Proof.
  destruct spec as [repo pay rp sc sa ts deps].
  unfold Prepare. cbn [RepositoryPath]. destruct rp as [|c p]; [discriminate|].
  cbv zeta.
  destruct (negb (Ascii.eqb c "/"%char));
    cbn [with_RepositoryPath with_Script RepositoryPath Script TransferScript];
    (destruct (String.eqb_spec sc "") as [->|Hsc]; cbn [negb]; [|destruct ts]);
    try (destruct (os_Open files sc) as [f|e]; [destruct (packScript gz f) as [s|e]|]);
    intros [= <- <-]; cbn; repeat split; try congruence;
    match goal with H : _ \/ _ |- _ => destruct H; [discriminate|contradiction] end.
Qed.

(** X12. [Prepare] and [unpackScript] fit together: for a job with a path,
    a transferred script and a script file that exists, [Prepare] succeeds
    and replaces [Script] by a string from which [unpackScript] (with a
    lossless gzip) writes exactly the content of the file. *)
Theorem Prepare_packs_script (spec : JobSpecification) (f : File) (dest : Writer) :
  gzip.lossless gz ->
  RepositoryPath spec <> "" ->
  TransferScript spec = true ->
  Script spec <> "" ->
  files !! Script spec = Some f ->
  write_fault dest = None ->
  exists spec',
    Prepare gz files spec = Returned (spec', None)
    /\ unpackScript gz (Script spec') dest
       = (mkWriter (written dest ++ contents f) None, None).
Proof.
  intros Hgz Hrp Hts Hsc Hfile Hdest.
  assert (Hboth : exists body,
    packScript gz (file_reads (contents f)) = inl body
    /\ unpackScript gz body dest = (mkWriter (written dest ++ contents f) None, None)).
  { unfold packScript. rewrite read_input_file. eexists. split; [reflexivity|].
    unfold unpackScript. rewrite DecodeString_EncodeToString.
    destruct (Hgz (contents f)) as (r & -> & ->).
    unfold Write. rewrite Hdest. reflexivity. }
  destruct Hboth as (body & Hpack & Hun).
  destruct spec as [repo pay rp sc sa ts deps]. cbn in Hrp, Hts, Hsc, Hfile. subst ts.
  unfold Prepare. cbn [RepositoryPath]. destruct rp as [|c p]; [congruence|].
  cbv zeta.
  destruct (negb (Ascii.eqb c "/"%char));
    cbn [with_RepositoryPath with_Script RepositoryPath Script TransferScript];
    (destruct (String.eqb_spec sc "") as [->|_]; [congruence|]); cbn [negb];
    unfold os_Open; rewrite Hfile, Hpack;
    eexists; (split; [reflexivity|]); exact Hun.
Qed.

(** X13. When the script to transfer cannot be opened, [Prepare] returns
    the error of [os.Open] wrapped in "could not open script" and leaves
    [Script] as it was, but [RepositoryPath] has already been given its
    leading slash. *)
Theorem Prepare_missing_script (spec : JobSpecification) :
  RepositoryPath spec <> "" ->
  TransferScript spec = true ->
  Script spec <> "" ->
  files !! Script spec = None ->
  exists spec',
    Prepare gz files spec
    = Returned (spec',
        Some ("could not open script: open " +:+ Script spec
              +:+ ": no such file or directory"))
    /\ Script spec' = Script spec
    /\ strings.HasPrefix (RepositoryPath spec') "/" = true.
Proof.
  intros Hrp Hts Hsc Hfile.
  destruct spec as [repo pay rp sc sa ts deps]. cbn in Hrp, Hts, Hsc, Hfile. subst ts.
  unfold Prepare, strings.HasPrefix. cbn [RepositoryPath Script].
  destruct rp as [|c p]; [congruence|]. cbv zeta.
  destruct (Ascii.eqb_spec c "/"%char) as [->|Hc];
    cbn [negb with_RepositoryPath with_Script RepositoryPath Script TransferScript];
    (destruct (String.eqb_spec sc "") as [->|_]; [congruence|]); cbn [negb];
    unfold os_Open; rewrite Hfile;
    eexists; (split; [reflexivity|]); cbn [Script RepositoryPath]; split;
    try reflexivity.
  change (String.prefix "/" (String "/" p))
    with (if ascii_dec "/"%char "/"%char then String.prefix "" p else false).
  destruct (ascii_dec "/"%char "/"%char); [destruct p; reflexivity|congruence].
Qed.

Lemma Prepare_plain (spec : JobSpecification) (c : ascii) (p : string) :
  RepositoryPath spec = String c p ->
  TransferScript spec = false \/ Script spec = "" ->
  Prepare gz files spec
  = Returned (if negb (Ascii.eqb c "/"%char)
              then with_RepositoryPath spec ("/" +:+ String c p) else spec, None).
Proof.
  destruct spec as [repo pay rp sc sa ts deps]. cbn. intros -> Hno.
  unfold Prepare. cbn [RepositoryPath]. cbv zeta.
  destruct (negb (Ascii.eqb c "/"%char));
    cbn [with_RepositoryPath with_Script RepositoryPath Script TransferScript];
    destruct Hno as [->| ->]; cbn [String.eqb negb];
    try destruct (negb (String.eqb sc "")); reflexivity.
Qed.

(** X14. For a job whose script is not transferred, [Prepare] is
    idempotent: it succeeds, and preparing its result again succeeds and
    changes nothing more. *)
Theorem Prepare_idempotent (spec : JobSpecification) :
  RepositoryPath spec <> "" ->
  TransferScript spec = false \/ Script spec = "" ->
  exists spec',
    Prepare gz files spec = Returned (spec', None)
    /\ Prepare gz files spec' = Returned (spec', None).
Proof.
  intros Hrp Hno.
  destruct (RepositoryPath spec) as [|c p] eqn:Ep; [congruence|].
  rewrite (Prepare_plain spec c p Ep Hno).
  eexists. split; [reflexivity|].
  destruct (Ascii.eqb c "/"%char) eqn:Ec; cbn [negb].
  - rewrite (Prepare_plain spec c p Ep Hno), Ec. reflexivity.
  - rewrite (Prepare_plain _ "/"%char (String c p)).
    + reflexivity.
    + destruct spec. reflexivity.
    + destruct spec. exact Hno.
Qed.

End PrepareMore.

(** ** cvmfs: more on packing, unpacking and processing *)

Section ScriptsMore.

Import cvmfs.

Variable gz : gzip.Codec.

(** X15. [unpackScript] writes only after decompressing, and only bytes of
    the decompressed script. When it returns nil the body decoded, the
    reader was built, the data decompressed, and exactly the decompressed
    bytes were appended to the destination. When it returns an error,
    either nothing was written (the body did not decode or decompress), or
    the error is the one of [Write], wrapped in "writing failed", and the
    bytes appended are the first bytes of the decompressed script that
    [Write] wrote before it failed. *)
Theorem unpackScript_writes_decompressed (body : string) (dest : Writer) :
  let '(dest', err) := unpackScript gz body dest in
  (err = None ->
     exists buf rd raw,
       base64.DecodeString body = inl buf
       /\ gzip.NewReader gz buf = inl rd
       /\ gzip.ReadAll gz rd = inl raw
       /\ write_fault dest = None
       /\ dest' = mkWriter (written dest ++ raw) None)
  /\ (err <> None ->
      (dest' = dest
       /\ forall buf rd raw,
            base64.DecodeString body = inl buf ->
            gzip.NewReader gz buf = inl rd ->
            gzip.ReadAll gz rd <> inl raw)
      \/ exists buf rd raw n e,
           base64.DecodeString body = inl buf
           /\ gzip.NewReader gz buf = inl rd
           /\ gzip.ReadAll gz rd = inl raw
           /\ write_fault dest = Some (n, e)
           /\ err = Some (errors_Wrap e "writing failed")
           /\ written dest' = written dest ++ take n raw).
Proof.
  unfold unpackScript.
  destruct (base64.DecodeString body) as [buf|e];
    [|split; [discriminate|intros _; left; split; [reflexivity|discriminate]]].
  destruct (gzip.NewReader gz buf) as [rd|e] eqn:Hrd;
    [|split; [discriminate|intros _; left; split; [reflexivity|]];
      intros buf' rd' raw' [= <-]; congruence].
  destruct (gzip.ReadAll gz rd) as [raw|e] eqn:Hraw;
    [|split; [discriminate|intros _; left; split; [reflexivity|]];
      intros buf' rd' raw' [= <-] Hrd'; congruence].
  unfold Write. destruct (write_fault dest) as [[n e]|] eqn:Hw.
  - split; [discriminate|]. intros _. right. exists buf, rd, raw, n, e. auto 10.
  - split; [|congruence]. intros _. exists buf, rd, raw. auto.
Qed.

Lemma read_input_app (chs : list bytes) (rest : Reader) :
  Forall (fun c => c <> []) chs ->
  forall input : bytes,
    read_input (map (fun c => (c, None)) chs ++ rest) input
    = read_input rest (input ++ concat chs).
Proof.
  induction chs as [|c chs IH]; intros Hne input; cbn [map app read_input concat].
  - rewrite app_nil_r. reflexivity.
  - apply Forall_cons in Hne as [Hc Hrest].
    destruct c as [|x c]; [congruence|].
    rewrite IH by assumption. rewrite app_assoc. reflexivity.
Qed.

(** X16. The read loop of [packScript], after reads that each returned
    some bytes: a read that returns nothing ends the input, and what later
    reads would return is not packed; a read that fails with an error
    other than [io.EOF] makes [packScript] fail with "could not read
    input", whatever was read before and whatever the failing read
    returned; the bytes of a read that returns [io.EOF] are packed with the
    rest. *)
Theorem packScript_read_loop (chs : list bytes) :
  Forall (fun c => c <> []) chs ->
  let reads := map (fun c => (c, None)) chs in
  (forall rest,
     packScript gz (reads ++ ([], None) :: rest)
     = inl (base64.EncodeToString (gzip.Compress gz (concat chs))))
  /\ (forall buf e rest,
        packScript gz (reads ++ (buf, Some (ReadFault e)) :: rest)
        = inr (errors_Wrap e "could not read input"))
  /\ (forall final,
        packScript gz (reads ++ [(final, Some EOF)])
        = inl (base64.EncodeToString (gzip.Compress gz (concat chs ++ final)))).
Proof.
  intros Hne reads. unfold packScript, reads. repeat split; intros.
  - rewrite read_input_app by assumption. reflexivity.
  - rewrite read_input_app by assumption. reflexivity.
  - rewrite read_input_app by assumption. cbn [read_input app].
    destruct final; [rewrite app_nil_r|]; reflexivity.
Qed.



End ScriptsMore.

(** ** base64: the characters of a packed script *)

Section PackedText.

Import base64.

Lemma index_from_alphabet (c : ascii) (s : string) :
  forall i n, index_from c s i = Some n -> In c (list_ascii_of_string s).
Proof.
  induction s as [|a s IH]; intros i n; cbn [index_from list_ascii_of_string].
  - discriminate.
  - destruct (Ascii.eqb_spec a c) as [->|_]; [left; reflexivity|].
    intros H. right. eapply IH, H.
Qed.

(** A character of the encoding: of the alphabet, or the padding. *)
Definition base64_char (c : ascii) : Prop :=
  In c (list_ascii_of_string encodeStd) \/ c = StdPadding.

Lemma sextet_base64_char (val k : N) : base64_char (sextet val k).
Proof.
  left. destruct (sextet_spec val k) as (H & _ & _).
  unfold decodeMap in H.
  exact (index_from_alphabet (sextet val k) encodeStd 0 _ H).
Qed.

Lemma EncodeToString_chars (src : bytes) :
  Forall base64_char (list_ascii_of_string (EncodeToString src))
  /\ (String.length (EncodeToString src) = 4 * ((length src + 2) / 3))%nat.
Proof.
  induction src as [|x|x y|x y z rest IH] using list_ind3;
    cbn [EncodeToString list_ascii_of_string String.length].
  - split; [constructor|reflexivity].
  - split; [|reflexivity].
    repeat (apply List.Forall_cons;
            [first [apply sextet_base64_char | right; reflexivity]|]).
    apply List.Forall_nil.
  - split; [|reflexivity].
    repeat (apply List.Forall_cons;
            [first [apply sextet_base64_char | right; reflexivity]|]).
    apply List.Forall_nil.
  - destruct IH as [IHc IHl]. split.
    + repeat (apply List.Forall_cons; [apply sextet_base64_char|]). exact IHc.
    + rewrite IHl. cbn [length].
      replace (S (S (S (length rest))) + 2)%nat with (1 * 3 + (length rest + 2))%nat by lia.
      rewrite Nat.div_add_l by discriminate. lia.
Qed.

(** X18. What [packScript] returns is plain base64 text: every character
    is one of the 64 of the standard alphabet or the padding [=] (no
    quote, backslash, control character or line break, so it goes into a
    JSON string as it is), and the length is a multiple of four. *)
Theorem packScript_text (gz : gzip.Codec) (reader : cvmfs.Reader) :
  match cvmfs.packScript gz reader with
  | inl body =>
      Forall base64_char (list_ascii_of_string body)
      /\ (String.length body mod 4 = 0)%nat
  | inr err => exists e, err = errors_Wrap e "could not read input"
  end.
Proof.
  unfold cvmfs.packScript.
  destruct (cvmfs.read_input reader []) as [input|err] eqn:Hread.
  - destruct (EncodeToString_chars (gzip.Compress gz input)) as [Hc Hl].
    split; [exact Hc|]. rewrite Hl, Nat.mul_comm. apply Nat.Div0.mod_mul.
  - revert Hread. generalize (@nil ascii).
    induction reader as [|[buf [[|e]|]] rest IH]; intros input; cbn [cvmfs.read_input].
    + discriminate.
    + destruct buf; [discriminate|]. apply IH.
    + intros [= <-]. eexists. reflexivity.
    + destruct buf; [discriminate|]. apply IH.
Qed.

End PackedText.

(** ** cvmfs: the endpoints of the job server *)

Section Endpoints.

Import cvmfs_config.

Lemma prefix_append (p s : string) : String.prefix p (p +:+ s) = true.
Proof.
  induction p as [|a p IH]; [destruct s; reflexivity|].
  change (String.prefix (String a p) (String a p +:+ s))
    with (if ascii_dec a a then String.prefix p (p +:+ s) else false).
  destruct (ascii_dec a a); [exact IH|congruence].
Qed.

Lemma prefix_extend (p : string) :
  forall s t, String.prefix p s = true -> String.prefix p (s +:+ t) = true.
Proof.
  induction p as [|a p IH]; intros s t; [destruct (s +:+ t); reflexivity|].
  destruct s as [|b s]; [discriminate|].
  change (String.prefix (String a p) (String b s))
    with (if ascii_dec a b then String.prefix p s else false).
  change (String.prefix (String a p) (String b s +:+ t))
    with (if ascii_dec a b then String.prefix p (s +:+ t) else false).
  destruct (ascii_dec a b); [apply IH|discriminate].
Qed.

(** X19. The base URL that [newHTTPEndpoints] builds always has a scheme:
    it starts with [http://] or [https://]. A host that already has one of
    the two is kept as it is, followed by a colon and the port, and any
    other host gets [http://] in front. Each endpoint with the base is the
    base followed by the endpoint without it. *)
Theorem newHTTPEndpoints_scheme (host : string) (port : Z) :
  let o := newHTTPEndpoints host port in
  (strings.HasPrefix (base o) "http://" = true
   \/ strings.HasPrefix (base o) "https://" = true)
  /\ (strings.HasPrefix host "http://" = true \/ strings.HasPrefix host "https://" = true ->
      base o = host +:+ ":" +:+ pretty port)
  /\ (strings.HasPrefix host "http://" = false /\ strings.HasPrefix host "https://" = false ->
      base o = "http://" +:+ host +:+ ":" +:+ pretty port)
  /\ NewJobs o true = base o +:+ NewJobs o false
  /\ CompletedJobs o true = base o +:+ CompletedJobs o false
  /\ NewJobs o false = "/jobs/new"
  /\ CompletedJobs o false = "/jobs/complete".
Proof.
  cbv zeta. unfold newHTTPEndpoints, strings.HasPrefix. cbn [base NewJobs CompletedJobs].
  destruct (String.prefix "http://" host) eqn:Hhttp;
    destruct (String.prefix "https://" host) eqn:Hhttps; cbn [negb andb].
  - cbn [String.append]. split; [|repeat split; auto; intros [? ?]; discriminate].
    left. exact (prefix_extend "http://" host (":" +:+ pretty port) Hhttp).
  - cbn [String.append]. split; [|repeat split; auto; intros [? ?]; discriminate].
    left. exact (prefix_extend "http://" host (":" +:+ pretty port) Hhttp).
  - cbn [String.append]. split; [|repeat split; auto; intros [? ?]; discriminate].
    right. exact (prefix_extend "https://" host (":" +:+ pretty port) Hhttps).
  - split; [|repeat split; auto; intros [?|?]; discriminate].
    left. apply (prefix_append "http://").
Qed.

End Endpoints.

(** ** Concrete runs of the further properties *)

Section MoreRuns.

Import Examples.

Lemma GetJob_found_witness :
  jobdb.GetJob db "a" false
  = (job.mkGetJobReply "ok" "" [job.mkStatus "a" true] [], None).
Proof.
  apply (proj2 (GetJob_found db "a" false row_a eq_refl eq_refl eq_refl)).
Defined.

Lemma GetJob_after_PutJob_witness :
  exists b',
    jobdb.PutJob db job_c = (b', job.mkPutJobReply "ok" "", None)
    /\ jobdb.GetJob b' "c" true = (job.mkGetJobReply "ok" "" [] [job_c], None).
Proof.
  destruct (GetJob_after_PutJob db job_c) as (b' & Hput & Hfull & _);
    try reflexivity.
  - repeat constructor; discriminate.
  - repeat constructor; discriminate.
  - exists b'. split; [exact Hput|exact Hfull].
Defined.

Lemma PutJob_keeps_other_jobs_witness :
  jobdb.GetJob (fst (fst (jobdb.PutJob db job_c))) "a" true = jobdb.GetJob db "a" true.
Proof.
  apply (PutJob_keeps_other_jobs db job_c "a" true). discriminate.
Defined.

Lemma GetJobs_rows_witness :
  jobdb.GetJobs db ["a"; "c"] false
  = Returned (job.mkGetJobReply "ok" "" [job.mkStatus "a" true] [], None).
Proof.
  apply (GetJobs_rows db ["a"; "c"] false).
  - discriminate.
  - reflexivity.
  - repeat constructor.
Defined.

Lemma GetJobs_unknown_ids_witness :
  jobdb.GetJobs db ["x"; "y"] true = Returned (job.mkGetJobReply "ok" "" [] [], None).
Proof.
  apply (GetJobs_unknown_ids db ["x"; "y"] true).
  - discriminate.
  - reflexivity.
  - repeat constructor; discriminate.
Defined.

Lemma Run_iteration_settles_head_witness :
  exists st' s,
    consume.Run_iteration unmarshal_strict mkdir_ok get_ok transaction_fails
      (start [job_message]) = Some st'
    /\ consume.settled st' = [s]
    /\ consume.delivery_of s = job_message.
Proof.
  destruct (Run_iteration_settles_head unit unmarshal_strict mkdir_ok get_ok
              transaction_fails (start [job_message]) job_message [] eq_refl)
    as (st' & s & Hit & Hs & Hd & _).
  exists st', s. auto.
Defined.

Lemma Run_settles_each_once_witness :
  consume.settled
    (consume.Run unmarshal_strict mkdir_ok get_ok transaction_ok 2
       (start [consume.mkDelivery [] false; job_message]))
  = [consume.Nack (consume.mkDelivery [] false) false false;
     consume.Ack job_message false].
Proof.
  apply (Run_settles_each_once unit unmarshal_strict mkdir_ok get_ok transaction_ok 2
           (start [consume.mkDelivery [] false; job_message])).
  - vm_compute. exists tt. split; reflexivity.
  - vm_compute. lia.
Defined.

Lemma Prepare_keeps_fields_witness :
  cvmfs.Repository (cvmfs.with_RepositoryPath spec_foo "/foo") = cvmfs.Repository spec_foo.
Proof.
  apply (Prepare_keeps_fields stored.codec ∅ spec_foo
           (cvmfs.with_RepositoryPath spec_foo "/foo") None eq_refl).
Defined.

Lemma Prepare_packs_script_witness :
  exists spec',
    cvmfs.Prepare stored.codec client_files spec_transfer = Returned (spec', None)
    /\ cvmfs.unpackScript stored.codec (cvmfs.Script spec') (cvmfs.mkWriter [] None)
       = (cvmfs.mkWriter script_text None, None).
Proof.
  apply (Prepare_packs_script stored.codec client_files spec_transfer
           (cvmfs.mkFile 420 script_text) (cvmfs.mkWriter [] None) stored_lossless).
  - discriminate.
  - reflexivity.
  - discriminate.
  - reflexivity.
  - reflexivity.
Defined.

Lemma Prepare_missing_script_witness :
  exists spec',
    cvmfs.Prepare stored.codec ∅ spec_transfer
    = Returned (spec',
        Some "could not open script: open /home/user/publish.sh: no such file or directory")
    /\ cvmfs.Script spec' = "/home/user/publish.sh"
    /\ strings.HasPrefix (cvmfs.RepositoryPath spec') "/" = true.
Proof.
  apply (Prepare_missing_script stored.codec ∅ spec_transfer).
  - discriminate.
  - reflexivity.
  - discriminate.
  - reflexivity.
Defined.

Lemma Prepare_idempotent_witness :
  exists spec',
    cvmfs.Prepare stored.codec ∅ spec_foo = Returned (spec', None)
    /\ cvmfs.Prepare stored.codec ∅ spec' = Returned (spec', None).
Proof.
  apply (Prepare_idempotent stored.codec ∅ spec_foo).
  - discriminate.
  - left. reflexivity.
Defined.

Lemma packScript_read_loop_witness :
  cvmfs.packScript stored.codec
    [(script_text, None); ([], None); (script_text, None)]
  = inl (base64.EncodeToString (stored.Compress script_text)).
Proof.
  assert (Hne : Forall (fun c : bytes => c <> []) [script_text]).
  { repeat constructor. discriminate. }
  destruct (packScript_read_loop stored.codec [script_text] Hne) as (Hstop & _).
  exact (Hstop [(script_text, None)]).
Defined.




Lemma Run_requeues_unbounded_witness :
  consume.requeues
    (consume.settled
       (consume.Run unmarshal_strict mkdir_ok get_ok transaction_fails 5
          (start [job_message])))
  = 5%nat.
Proof.
  apply (Run_requeues_unbounded unit unmarshal_strict mkdir_ok get_ok transaction_fails 5
           (start [job_message])).
  vm_compute.
  repeat (exists job_description, tt, "could not open transaction";
          split; [reflexivity|split; [reflexivity|]]).
  exact I.
Defined.

End MoreRuns.
